(** * Serverless RAG: chunker, vector store, query cache and query pipeline

    A shallow embedding of
      - [src/lambdas/ingestion/handler.py]  (module [Ingestion]),
      - [src/layers/common/vector_db.py]    (module [VectorDb]),
      - [src/lambdas/embedding/handler.py]  (module [Embedding]),
      - [src/lambdas/query/handler.py]      (module [Query]),
    with [hashlib.sha256] (module [Hashlib]) and the properties of the
    specification stated over them.

    Conventions.
      - A Python [str] is a [string]; a character is a code point below
        256 (the Latin-1 block of Unicode), which is what [ascii] holds.
      - A Python [int] is a [Z]; [len] returns a [Z].
      - A Python [float] is a rational [Q]: every finite float is one, and
        the comparisons the code makes are the rational ones.  Sums and
        products are exact, without the rounding of floating point; NaN
        and the infinities are outside the model.
      - A Python [dict] with string keys is a [gmap string _].
      - A remote service is what its client sees of it: a store for the
        two vector backends and the cache table, a function that returns
        or raises for the embedding, search and generation calls.  The
        lazily created clients and connections are taken as created. *)

From Stdlib Require Import ZArith QArith Ascii String DecimalString.
From stdpp Require Import base option list gmap strings sorting.

Local Open Scope string_scope.
Local Open Scope list_scope.
Local Open Scope Z_scope.

(** ** Python strings *)

Module PyStr.

(** [len(s)] *)
Definition len (s : string) : Z := Z.of_nat (String.length s).

(** Truth value of a string: non-empty. *)
Definition truthy (s : string) : bool :=
  match s with EmptyString => false | String _ _ => true end.

(** [str.isspace] on one code point below 256: U+0009..U+000D,
    U+001C..U+001F, U+0020, U+0085, U+00A0.  The regular expression
    class [\s] and [str.strip()] use the same predicate. *)
Definition is_space (c : ascii) : bool :=
  let n := nat_of_ascii c in
  ((9 <=? n)%nat && (n <=? 13)%nat)
  || ((28 <=? n)%nat && (n <=? 31)%nat)
  || (n =? 32)%nat || (n =? 133)%nat || (n =? 160)%nat.

Fixpoint str_drop (n : nat) (s : string) : string :=
  match n, s with
  | O, _ => s
  | S _, EmptyString => EmptyString
  | S n', String _ s' => str_drop n' s'
  end.

Fixpoint str_take (n : nat) (s : string) : string :=
  match n, s with
  | O, _ => EmptyString
  | S _, EmptyString => EmptyString
  | S n', String c s' => String c (str_take n' s')
  end.

(** Slice bounds are clamped the way Python clamps them: a negative
    bound counts from the end, and both ends stay within [0, len]. *)
Definition clamp (k : Z) (s : string) : nat :=
  Z.to_nat (if (k <? 0)%Z then Z.max 0 (len s + k) else Z.min k (len s)).

(** [s[k:]] *)
Definition slice_from (k : Z) (s : string) : string := str_drop (clamp k s) s.

(** [s[:k]] *)
Definition slice_to (k : Z) (s : string) : string := str_take (clamp k s) s.

Fixpoint lstrip (s : string) : string :=
  match s with
  | EmptyString => EmptyString
  | String c s' => if is_space c then lstrip s' else s
  end.

Fixpoint rstrip (s : string) : string :=
  match s with
  | EmptyString => EmptyString
  | String c s' =>
      match rstrip s' with
      | EmptyString => if is_space c then EmptyString else String c EmptyString
      | r => String c r
      end
  end.

(** [s.strip()] *)
Definition strip (s : string) : string := rstrip (lstrip s).

(** [s.lower()] on code points below 256: A..Z and U+00C0..U+00DE
    except the multiplication sign U+00D7 move up by 32. *)
Definition lower_char (c : ascii) : ascii :=
  let n := nat_of_ascii c in
  if ((65 <=? n)%nat && (n <=? 90)%nat)
     || ((192 <=? n)%nat && (n <=? 222)%nat && negb (n =? 215)%nat)
  then ascii_of_nat (n + 32) else c.

Fixpoint lower (s : string) : string :=
  match s with
  | EmptyString => EmptyString
  | String c s' => String (lower_char c) (lower s')
  end.

(** [c * n] for a one-character string [c]. *)
Fixpoint replicate_char (n : nat) (c : ascii) : string :=
  match n with
  | O => EmptyString
  | S n' => String c (replicate_char n' c)
  end.

(** Every character of [s] is white space. *)
Fixpoint all_space (s : string) : bool :=
  match s with
  | EmptyString => true
  | String c s' => is_space c && all_space s'
  end.

End PyStr.

(** ** Ingestion: the chunker *)

Module Ingestion.
Import PyStr.

Record TextChunk := mkTextChunk {
  text : string;
  chunk_index : Z;
  start_char : Z;
  end_char : Z
}.

(** Defaults of [CHUNK_SIZE] and [CHUNK_OVERLAP]. *)
Definition CHUNK_SIZE : Z := 1000.
Definition CHUNK_OVERLAP : Z := 200.

(** *** [re.compile(r"(?<=[.!?;])\s+").split(text)] *)

Definition is_boundary_char (c : ascii) : bool :=
  let n := nat_of_ascii c in
  (n =? 46)%nat || (n =? 33)%nat || (n =? 63)%nat || (n =? 59)%nat.

(** The scanner is either inside a piece, remembering whether the
    character just read is one of [.!?;], or inside a separator, which
    the greedy [\s+] extends over the whole run of white space. *)
Inductive scan_mode := InPiece (after_boundary : bool) | InSeparator.

(** [piece] is the text of the current piece, read so far. *)
Fixpoint split_scan (mode : scan_mode) (piece : string) (s : string)
  : list string :=
  match s with
  | EmptyString => [piece]
  | String c s' =>
      match mode with
      | InSeparator =>
          if is_space c then split_scan InSeparator piece s'
          else split_scan (InPiece (is_boundary_char c))
                          (piece +:+ String c EmptyString) s'
      | InPiece after =>
          if after && is_space c
          then piece :: split_scan InSeparator EmptyString s'
          else split_scan (InPiece (is_boundary_char c))
                          (piece +:+ String c EmptyString) s'
      end
  end.

Definition split_sentences (t : string) : list string :=
  split_scan (InPiece false) EmptyString t.

(** *** [chunk_text] *)

(** The local variables of the loop. *)
Record loop_state := mkLoop {
  chunks : list TextChunk;
  current_text : string;
  current_start : Z;
  char_pos : Z
}.

Definition loop_init : loop_state :=
  {| chunks := []; current_text := ""; current_start := 0; char_pos := 0 |}.

(** [len(current_text) + len(sentence) > chunk_size and current_text] *)
Definition closes (chunk_size : Z) (st : loop_state) (sentence : string) : bool :=
  (len (current_text st) + len sentence >? chunk_size)%Z
  && truthy (current_text st).

(** One iteration of [for sentence in sentences]. *)
Definition loop_body (chunk_size overlap : Z) (st : loop_state)
    (sentence : string) : loop_state :=
  let st1 :=
    if closes chunk_size st sentence then
      let chunks1 :=
        chunks st ++
          [ {| text := strip (current_text st);
               chunk_index := Z.of_nat (length (chunks st));
               start_char := current_start st;
               end_char := char_pos st |} ] in
      let overlap_start := Z.max 0 (len (current_text st) - overlap) in
      let current_text1 :=
        slice_from overlap_start (current_text st) +:+ " " +:+ sentence in
      let current_start1 :=
        char_pos st - (len current_text1 - len sentence - 1) in
      {| chunks := chunks1; current_text := current_text1;
         current_start := current_start1; char_pos := char_pos st |}
    else
      {| chunks := chunks st;
         current_text :=
           if truthy (current_text st)
           then current_text st +:+ (" " +:+ sentence)
           else sentence;
         current_start := current_start st;
         char_pos := char_pos st |} in
  {| chunks := chunks st1; current_text := current_text st1;
     current_start := current_start st1;
     char_pos := char_pos st1 + (len sentence + 1) |}.

Definition run_loop (chunk_size overlap : Z) (sentences : list string)
    (st : loop_state) : loop_state :=
  fold_left (loop_body chunk_size overlap) sentences st.

(** The last chunk, after the loop. *)
Definition flush (st : loop_state) : list TextChunk :=
  if truthy (strip (current_text st)) then
    chunks st ++
      [ {| text := strip (current_text st);
           chunk_index := Z.of_nat (length (chunks st));
           start_char := current_start st;
           end_char := char_pos st |} ]
  else chunks st.

Definition chunk_text (t : string) (chunk_size overlap : Z) : list TextChunk :=
  flush (run_loop chunk_size overlap (split_sentences t) loop_init).

(** The indices of [cs] are 0, 1, ..., [length cs - 1], in this order. *)
Definition dense (cs : list TextChunk) : Prop :=
  map chunk_index cs = map Z.of_nat (seq 0 (length cs)).


End Ingestion.

(** ** Python values, exceptions and effects *)

Module Py.

(** The scalar values a metadata mapping holds. *)
Inductive pyval :=
| VStr (s : string)
| VInt (n : Z)
| VBool (b : bool).

#[global] Instance pyval_eq_dec : EqDecision pyval.
Proof. solve_decision. Defined.

(** An exception: its class and the message [str(e)] renders. *)
Record exn := mkExn { exn_class : string; exn_msg : string }.

#[global] Instance exn_eq_dec : EqDecision exn.
Proof. solve_decision. Defined.

(** A computation over a state of type [S] that returns a value or
    raises: the state changes made before the exception are kept. *)
Definition M (S A : Type) : Type := S -> (exn + A) * S.

Definition ret {S A} (a : A) : M S A := fun s => (inr a, s).

Definition raise {S A} (e : exn) : M S A := fun s => (inl e, s).

Definition bind {S A B} (m : M S A) (k : A -> M S B) : M S B :=
  fun s =>
    match m s with
    | (inr a, s1) => k a s1
    | (inl e, s1) => (inl e, s1)
    end.

#[global] Instance M_ret {S} : MRet (M S) := fun A a => ret a.
#[global] Instance M_bind {S} : MBind (M S) := fun A B k m => bind m k.

(** [try: m  except Exception as e: h e] *)
Definition try_except {S A} (m : M S A) (h : exn -> M S A) : M S A :=
  fun s =>
    match m s with
    | (inr a, s1) => (inr a, s1)
    | (inl e, s1) => h e s1
    end.

Definition get_state {S} : M S S := fun s => (inr s, s).

Definition modify {S} (f : S -> S) : M S unit := fun s => (inr tt, f s).

(** A call whose outcome is already known. *)
Definition lift {S A} (r : exn + A) : M S A := fun s => (r, s).

(** [range(0, stop, step)]: [None] stands for the [ValueError] of a
    zero step. *)
Definition range_step (stop step : Z) : option (list Z) :=
  if (step =? 0)%Z then None
  else if (step <? 0)%Z then Some []
  else Some (map (fun k => Z.of_nat k * step)
                 (seq 0 (Z.to_nat ((stop + step - 1) / step)))).

(** [l[i:j]] for [0 <= i <= j]. *)
Definition list_slice {A} (i j : Z) (l : list A) : list A :=
  take (Z.to_nat (j - i)) (drop (Z.to_nat i) l).

End Py.

(** ** The vector store abstraction *)

Module VectorDb.
Import PyStr Py.

(** [text] is declared a string; a record built by [search] carries
    whatever the backend metadata holds under ["text"]. *)
Record VectorRecord := mkVectorRecord {
  id : string;
  vector : list Q;
  text : pyval;
  metadata : gmap string pyval;
  score : option Q
}.

(** *** The managed ANN service, as the client sees it *)

(** One stored vector: [{"id", "values", "metadata"}]. *)
Record PineconeVector := mkPineconeVector {
  pv_id : string;
  pv_values : list Q;
  pv_metadata : gmap string pyval
}.

Record PineconeMatch := mkPineconeMatch {
  m_id : string;
  m_score : Q;
  m_metadata : gmap string pyval
}.

(** What the index keeps under an id. *)
Record StoredVector := mkStoredVector {
  sv_values : list Q;
  sv_metadata : gmap string pyval
}.

(** The index: its similarity metric, fixed when the index is created,
    and the vectors it holds by id. *)
Record PineconeIndex := mkPineconeIndex {
  ix_metric : list Q -> list Q -> Q;
  ix_vectors : gmap string StoredVector
}.

(** A metadata filter holds when every key of the filter is present
    with an equal value. *)
Definition matches_filter (flt md : gmap string pyval) : bool :=
  bool_decide (map_Forall (fun k v => md !! k = Some v) flt).

(** [if filter_metadata:] is false for [None] and for the empty dict. *)
Definition filter_given (flt : option (gmap string pyval))
  : option (gmap string pyval) :=
  match flt with
  | Some f => if bool_decide (f = ∅) then None else Some f
  | None => None
  end.

Definition passes (flt : option (gmap string pyval))
    (md : gmap string pyval) : bool :=
  match flt with
  | Some f => matches_filter f md
  | None => true
  end.

(** Best score first. *)
Definition by_score_desc (a b : PineconeMatch) : Prop :=
  Qle (m_score b) (m_score a).

#[global] Instance by_score_desc_dec : RelDecision by_score_desc.
Proof.
  intros a b. unfold by_score_desc.
  destruct (Qlt_le_dec (m_score a) (m_score b)) as [H | H].
  - right. intros H'. exact (Qlt_not_le _ _ H H').
  - left. exact H.
Defined.

(** Insert or replace by id, in the order of the list. *)
Definition store_all (vs : list PineconeVector)
    (m : gmap string StoredVector) : gmap string StoredVector :=
  fold_left
    (fun m v =>
       <[pv_id v := {| sv_values := pv_values v;
                       sv_metadata := pv_metadata v |}]> m)
    vs m.

(** [index.upsert(vectors=batch)] *)
Definition index_upsert (batch : list PineconeVector) (ix : PineconeIndex)
  : PineconeIndex :=
  {| ix_metric := ix_metric ix;
     ix_vectors := store_all batch (ix_vectors ix) |}.

(** [index.query(vector, top_k, include_metadata=True, filter)]: the
    [top_k] best matches among the vectors that pass the filter. *)
Definition index_query (q : list Q) (top_k : Z)
    (flt : option (gmap string pyval)) (ix : PineconeIndex)
  : list PineconeMatch :=
  let candidates :=
    List.filter (fun m => passes flt (m_metadata m))
      (map (fun kv : string * StoredVector =>
              {| m_id := kv.1;
                 m_score := ix_metric ix q (sv_values kv.2);
                 m_metadata := sv_metadata kv.2 |})
           (map_to_list (ix_vectors ix))) in
  take (Z.to_nat top_k) (merge_sort by_score_desc candidates).

(** [index.delete(ids=ids)]: ids that are not stored are ignored. *)
Definition index_delete (ids : list string) (ix : PineconeIndex)
  : PineconeIndex :=
  {| ix_metric := ix_metric ix;
     ix_vectors := fold_left (fun m i => delete i m) ids (ix_vectors ix) |}.

(** *** [class PineconeDB] *)

(** [index] is [self.index], the index behind the lazily created client. *)
Record PineconeDB := mkPineconeDB {
  batch_size : Z;
  index : PineconeIndex
}.

Definition set_index (ix : PineconeIndex) (db : PineconeDB) : PineconeDB :=
  {| batch_size := batch_size db; index := ix |}.

(** [r.text[:1000]]: only a string can be sliced. *)
Definition text_prefix (t : pyval) : exn + pyval :=
  match t with
  | VStr s => inr (VStr (slice_to 1000 s))
  | VInt _ => inl (mkExn "TypeError" "'int' object is not subscriptable")
  | VBool _ => inl (mkExn "TypeError" "'bool' object is not subscriptable")
  end.

(** [{"text": r.text[:1000], **r.metadata}]: a key of [r.metadata]
    replaces an earlier key of the same name. *)
Definition pinecone_vector (r : VectorRecord) : exn + PineconeVector :=
  match text_prefix (text r) with
  | inl e => inl e
  | inr t =>
      inr {| pv_id := id r;
             pv_values := vector r;
             pv_metadata := metadata r ∪ {[ "text" := t ]} |}
  end.

(** The first loop of [upsert]. *)
Fixpoint pinecone_vectors (records : list VectorRecord)
  : exn + list PineconeVector :=
  match records with
  | [] => inr []
  | r :: rest =>
      match pinecone_vector r with
      | inl e => inl e
      | inr v =>
          match pinecone_vectors rest with
          | inl e => inl e
          | inr vs => inr (v :: vs)
          end
      end
  end.

(** The batch loop: [for i in range(0, len(vectors), batch_size)]. *)
Definition upsert_batches (bs : Z) (vectors : list PineconeVector)
    (starts : list Z) (ix : PineconeIndex) : Z * PineconeIndex :=
  fold_left
    (fun (acc : Z * PineconeIndex) (i : Z) =>
       let batch := list_slice i (i + bs) vectors in
       (acc.1 + Z.of_nat (length batch), index_upsert batch acc.2))
    starts (0, ix).

Definition Pinecone_upsert (records : list VectorRecord) : M PineconeDB Z :=
  match records with
  | [] => ret 0
  | _ =>
      vectors ← lift (pinecone_vectors records);
       db ← get_state;
       match range_step (Z.of_nat (length vectors)) (batch_size db) with
       | None => raise (mkExn "ValueError" "range() arg 3 must not be zero")
       | Some starts =>
           let '(upserted, ix) :=
             upsert_batches (batch_size db) vectors starts (index db) in
           modify (set_index ix) ;;
           ret upserted
       end
  end.

Definition Pinecone_search (query_vector : list Q) (top_k : Z)
    (filter_metadata : option (gmap string pyval))
  : M PineconeDB (list VectorRecord) :=
  db ← get_state;
   let response :=
     index_query query_vector top_k (filter_given filter_metadata)
                 (index db) in
   ret (map (fun m =>
               {| id := m_id m;
                  vector := [];
                  text := default (VStr "") (m_metadata m !! "text");
                  metadata := m_metadata m;
                  score := Some (m_score m) |})
            response).

Definition Pinecone_delete (ids : list string) : M PineconeDB Z :=
  match ids with
  | [] => ret 0
  | _ =>
      db ← get_state;
       modify (set_index (index_delete ids (index db))) ;;
       ret (Z.of_nat (length ids))
  end.

(** *** The relational store, as the client sees it *)

(** A row, without its primary key [id]. *)
Record PgRow := mkPgRow {
  row_embedding : list Q;
  row_text : pyval;
  row_metadata : gmap string pyval
}.

(** [class PgVectorDB]: the table behind [self.conn], keyed by its
    primary key [id] (created empty by [_ensure_table] when it does not
    exist), and the cosine distance [<=>] of the vector extension. *)
Record PgVectorDB := mkPgVectorDB {
  pg_distance : list Q -> list Q -> Q;
  pg_table : gmap string PgRow
}.

Definition set_table (t : gmap string PgRow) (db : PgVectorDB) : PgVectorDB :=
  {| pg_distance := pg_distance db; pg_table := t |}.

(** [INSERT ... ON CONFLICT (id) DO UPDATE SET embedding, text, metadata] *)
Definition pg_insert (r : VectorRecord) (t : gmap string PgRow)
  : gmap string PgRow :=
  <[id r := {| row_embedding := vector r;
               row_text := text r; row_metadata := metadata r |}]> t.

Definition Pg_upsert (records : list VectorRecord) : M PgVectorDB Z :=
  match records with
  | [] => ret 0
  | _ =>
      db ← get_state;
       modify (set_table (fold_left (fun t r => pg_insert r t) records
                                    (pg_table db))) ;;
       ret (Z.of_nat (length records))
  end.

(** [DELETE FROM t WHERE id IN (ids)] with its [rowcount]: the number
    of rows the statement matched. *)
Definition pg_delete_rows (ids : list string) (t : gmap string PgRow)
  : Z * gmap string PgRow :=
  (Z.of_nat (size (filter (fun kv : string * PgRow => kv.1 ∈ ids) t)),
   filter (fun kv : string * PgRow => kv.1 ∉ ids) t).

Definition Pg_delete (ids : list string) : M PgVectorDB Z :=
  match ids with
  | [] => ret 0
  | _ =>
      db ← get_state;
       let '(deleted, t) := pg_delete_rows ids (pg_table db) in
       modify (set_table t) ;;
       ret deleted
  end.

End VectorDb.

(** ** The embedding handler: storing vectors *)

Module Embedding.
Import PyStr Py.

Record EmbeddingResult := mkEmbeddingResult {
  chunk_id : string;
  document_id : string;
  vector : list Q;
  text : pyval;
  metadata : gmap string pyval
}.

(** Default of [BATCH_SIZE]. *)
Definition BATCH_SIZE : Z := 100.

(** [{"document_id": ..., "text": r.text[:1000], **r.metadata}] *)
Definition pinecone_vector (r : EmbeddingResult)
  : exn + VectorDb.PineconeVector :=
  match VectorDb.text_prefix (text r) with
  | inl e => inl e
  | inr t =>
      inr {| VectorDb.pv_id := chunk_id r;
             VectorDb.pv_values := vector r;
             VectorDb.pv_metadata :=
               metadata r ∪
                 <["text" := t]> {[ "document_id" := VStr (document_id r) ]} |}
  end.

Fixpoint pinecone_vectors (results : list EmbeddingResult)
  : exn + list VectorDb.PineconeVector :=
  match results with
  | [] => inr []
  | r :: rest =>
      match pinecone_vector r with
      | inl e => inl e
      | inr v =>
          match pinecone_vectors rest with
          | inl e => inl e
          | inr vs => inr (v :: vs)
          end
      end
  end.

(** The state is the index behind [get_pinecone_index()]. *)
Definition store_vectors_pinecone (batch_size : Z)
    (results : list EmbeddingResult) : M VectorDb.PineconeIndex Z :=
  match results with
  | [] => ret 0
  | _ =>
      vectors ← lift (pinecone_vectors results);
      ix ← get_state;
      match range_step (Z.of_nat (length vectors)) batch_size with
      | None => raise (mkExn "ValueError" "range() arg 3 must not be zero")
      | Some starts =>
          let '(stored, ix1) :=
            VectorDb.upsert_batches batch_size vectors starts ix in
          modify (fun _ => ix1) ;;
          ret stored
      end
  end.

End Embedding.

(** ** [hashlib.sha256] and [str.encode] *)

Module Hashlib.

(** [s.encode()]: UTF-8 of code points below 256, one byte below 128
    and two bytes from 128 on. *)
Fixpoint encode (s : string) : list Z :=
  match s with
  | EmptyString => []
  | String c s' =>
      let n := Z.of_nat (nat_of_ascii c) in
      if (n <? 128)%Z then n :: encode s'
      else Z.lor 192 (Z.shiftr n 6) :: Z.lor 128 (Z.land n 63) :: encode s'
  end.

Definition mask32 : Z := 0xFFFFFFFF.
Definition add32 (a b : Z) : Z := Z.land (a + b) mask32.
Definition rotr (n x : Z) : Z :=
  Z.lor (Z.shiftr x n) (Z.land (Z.shiftl x (32 - n)) mask32).
Definition not32 (x : Z) : Z := Z.lxor x mask32.

Definition Ch (x y z : Z) : Z := Z.lxor (Z.land x y) (Z.land (not32 x) z).
Definition Maj (x y z : Z) : Z :=
  Z.lxor (Z.land x y) (Z.lxor (Z.land x z) (Z.land y z)).
Definition Sigma0 (x : Z) : Z := Z.lxor (rotr 2 x) (Z.lxor (rotr 13 x) (rotr 22 x)).
Definition Sigma1 (x : Z) : Z := Z.lxor (rotr 6 x) (Z.lxor (rotr 11 x) (rotr 25 x)).
Definition sigma0 (x : Z) : Z := Z.lxor (rotr 7 x) (Z.lxor (rotr 18 x) (Z.shiftr x 3)).
Definition sigma1 (x : Z) : Z := Z.lxor (rotr 17 x) (Z.lxor (rotr 19 x) (Z.shiftr x 10)).

(** The constants of the standard are fractional parts of roots of the
    first primes, 32 bits each. *)
Definition is_prime (n : nat) : bool :=
  forallb (fun d => negb (n mod d =? 0)%nat) (seq 2 (n - 2)).

Definition first_primes (count : nat) : list Z :=
  map Z.of_nat (take count (List.filter is_prime (seq 2 400))).

(** The integer cube root of [x], bit by bit from bit [n - 1] down. *)
Fixpoint cube_root_bits (n : nat) (x acc : Z) : Z :=
  match n with
  | O => acc
  | S n' =>
      let c := acc + 2 ^ Z.of_nat n' in
      if (c * c * c <=? x)%Z then cube_root_bits n' x c
      else cube_root_bits n' x acc
  end.

(** Cube roots of the first 64 primes. *)
Definition K256 : list Z :=
  map (fun p => Z.land (cube_root_bits 40 (p * 2 ^ 96) 0) mask32)
      (first_primes 64).

(** Square roots of the first 8 primes. *)
Definition H0 : list Z :=
  map (fun p => Z.land (Z.sqrt (p * 2 ^ 64)) mask32) (first_primes 8).

(** Message padding: the bit 1, zero bytes up to 56 modulo 64, and the
    length in bits as eight big-endian bytes. *)
Definition be_bytes (count : nat) (x : Z) : list Z :=
  map (fun i => Z.land (Z.shiftr x (8 * Z.of_nat i)) 255) (rev (seq 0 count)).

Definition pad (msg : list Z) : list Z :=
  let l := Z.of_nat (length msg) in
  let zeros := Z.to_nat ((55 - l) mod 64) in
  msg ++ [128] ++ repeat 0 zeros ++ be_bytes 8 (8 * l).

Fixpoint words (bytes : list Z) : list Z :=
  match bytes with
  | a :: b :: c :: d :: rest =>
      (Z.shiftl a 24 + Z.shiftl b 16 + Z.shiftl c 8 + d) :: words rest
  | _ => []
  end.

(** The message schedule, newest word first. *)
Fixpoint schedule (n : nat) (w : list Z) : list Z :=
  match n with
  | O => w
  | S n' =>
      let x :=
        add32 (add32 (sigma1 (nth 1 w 0)) (nth 6 w 0))
              (add32 (sigma0 (nth 14 w 0)) (nth 15 w 0)) in
      schedule n' (x :: w)
  end.

Definition round (st : list Z) (kw : Z * Z) : list Z :=
  match st with
  | [a; b; c; d; e; f; g; h] =>
      let t1 :=
        add32 (add32 (add32 h (Sigma1 e)) (add32 (Ch e f g) kw.1)) kw.2 in
      let t2 := add32 (Sigma0 a) (Maj a b c) in
      [add32 t1 t2; a; b; c; add32 d t1; e; f; g]
  | _ => st
  end.

Definition compress (h : list Z) (block : list Z) : list Z :=
  let w := rev (schedule 48 (rev block)) in
  let st := fold_left round (zip K256 w) h in
  zip_with add32 h st.

Fixpoint blocks (n : nat) (ws : list Z) : list (list Z) :=
  match n with
  | O => []
  | S n' => take 16 ws :: blocks n' (drop 16 ws)
  end.

Definition sha256 (msg : list Z) : list Z :=
  let ws := words (pad msg) in
  fold_left compress (blocks (length ws / 16) ws) H0.

Definition hex_digit (n : Z) : ascii :=
  if (n <? 10)%Z then ascii_of_nat (48 + Z.to_nat n)
  else ascii_of_nat (87 + Z.to_nat n).

Definition hex_word (w : Z) : string :=
  fold_right (fun i acc => String (hex_digit (Z.land (Z.shiftr w (4 * Z.of_nat i)) 15)) acc)
             EmptyString (rev (seq 0 8)).

(** [hashlib.sha256(data).hexdigest()] *)
Definition hexdigest (msg : list Z) : string :=
  fold_right (fun w acc => hex_word w +:+ acc) EmptyString (sha256 msg).

End Hashlib.

(** ** The query pipeline *)

Module Query.
Import PyStr Py.

(** *** Configuration *)

Record Config := mkConfig {
  CACHE_ENABLED : bool;
  CACHE_TTL : Z;
  TOP_K : Z;
  SIMILARITY_THRESHOLD : Q
}.

(** The defaults of the environment variables.  The threshold is the
    float that [float("0.7")] denotes. *)
Definition default_config : Config :=
  {| CACHE_ENABLED := true;
     CACHE_TTL := 3600;
     TOP_K := 5;
     SIMILARITY_THRESHOLD := 3152519739159347 # 4503599627370496 |}.

(** The literal texts of the module.  They are written in Greek, outside
    the code points a [string] holds here, and no operation inspects
    them, so they are taken as given. *)
Record Texts := mkTexts {
  system_prompt : string;
  context_header : string;     (* up to the first [---] line included *)
  question_label : string;     (* from the closing [---] line to the question *)
  answer_label : string;       (* after the question *)
  no_documents : string        (* the context when nothing was found *)
}.

(** *** Data classes *)

Record SearchResult := mkSearchResult {
  chunk_id : string;
  document_id : pyval;
  text : pyval;
  score : Q;
  metadata : gmap string pyval
}.

Record QueryMetrics := mkQueryMetrics {
  embedding_ms : Q;
  search_ms : Q;
  llm_ms : Q;
  total_ms : Q;
  tokens_used : Z;
  cost_usd : Q;
  cache_hit : bool
}.

(** One entry of [sources]. *)
Record Source := mkSource {
  src_document_id : pyval;
  src_filename : pyval;
  src_score : Q;
  src_chunk_id : string
}.

(** [{"answer", "sources", "context_used"}] *)
Record Response := mkResponse {
  answer : string;
  sources : list Source;
  context_used : Z
}.

(** An item of the cache table, read with [item.get]. *)
Record CacheItem := mkCacheItem {
  item_response : option Response;
  item_expires_at : option Q
}.

Record Message := mkMessage { role : string; content : string }.

(** *** The world outside the function *)

Inductive Event :=
| EvEmbed (input : string)
| EvSearch (v : list Q) (top_k : Z) (flt : option (gmap string pyval))
| EvGenerate (messages : list Message)
| EvCacheGet (key : string)
| EvCachePut (key : string) (item : CacheItem)
| EvPrint (line : string).

(** The remote services: each call returns or raises. *)
Record Services := mkServices {
  embeddings_create : string -> exn + list Q;
  pinecone_query :
    list Q -> Z -> option (gmap string pyval) -> exn + list VectorDb.PineconeMatch;
  chat_completions : list Message -> exn + (string * Z)
}.

(** What changes while a query runs: the clock, read by [time.time()],
    the cache table, and the record of calls made and lines printed.
    [cache_fault], when set, is what every call to the cache table
    raises. *)
Record World := mkWorld {
  clock : nat -> Q;
  ticks : nat;
  cache_table : gmap string CacheItem;
  cache_fault : option exn;
  trace : list Event
}.

Definition emit (e : Event) : M World unit :=
  modify (fun w =>
    {| clock := clock w; ticks := ticks w; cache_table := cache_table w;
       cache_fault := cache_fault w; trace := trace w ++ [e] |}).

Definition print (line : string) : M World unit := emit (EvPrint line).

(** The world after one reading of the clock. *)
Definition tick (w : World) : World :=
  {| clock := clock w; ticks := S (ticks w); cache_table := cache_table w;
     cache_fault := cache_fault w; trace := trace w |}.

(** [time.time()] *)
Definition time_time : M World Q :=
  fun w => (inr (clock w (ticks w)), tick w).

(** The calls to the embedding, search and generation services. *)
Definition is_remote_call (e : Event) : bool :=
  match e with
  | EvEmbed _ | EvSearch _ _ _ | EvGenerate _ => true
  | _ => false
  end.

(** The calls that come after a search: generation and cache write. *)
Definition is_after_search (e : Event) : bool :=
  match e with
  | EvGenerate _ | EvCachePut _ _ => true
  | _ => false
  end.

(** [table.get_item(Key={"cache_key": key})]: [None] when the
    response has no ["Item"]. *)
Definition table_get_item (key : string) : M World (option CacheItem) :=
  emit (EvCacheGet key) ;;
  w ← get_state;
  match cache_fault w with
  | Some e => raise e
  | None => ret (cache_table w !! key)
  end.

Definition table_put_item (key : string) (item : CacheItem) : M World unit :=
  emit (EvCachePut key item) ;;
  w ← get_state;
  match cache_fault w with
  | Some e => raise e
  | None =>
      modify (fun w =>
        {| clock := clock w; ticks := ticks w;
           cache_table := <[key := item]> (cache_table w);
           cache_fault := cache_fault w; trace := trace w |})
  end.

(** *** Numbers *)

(** [a > b] on floats. *)
Definition Qgtb (a b : Q) : bool := negb (Qle_bool a b).

(** Round [num / den] to the nearest integer, ties to the even one. *)
Definition round_half_even (num den : Z) : Z :=
  let f := num / den in
  let r := num mod den in
  if (2 * r <? den)%Z then f
  else if (den <? 2 * r)%Z then f + 1
  else if Z.even f then f else f + 1.

(** [round(x, ndigits)] *)
Definition py_round (x : Q) (ndigits : nat) : Q :=
  let scale := (10 ^ Z.of_nat ndigits)%Z in
  round_half_even (Qnum x * scale) (Zpos (Qden x)) # Z.to_pos scale.

(** [int(x)] on a float: towards zero. *)
Definition py_int (x : Q) : Z := Z.quot (Qnum x) (Zpos (Qden x)).

(** [str(n)] *)
Definition str_of_Z (n : Z) : string :=
  DecimalString.NilZero.string_of_int (Z.to_int n).

(** [str(v)], as an f-string renders a value. *)
Definition str_of_pyval (v : pyval) : string :=
  match v with
  | VStr s => s
  | VInt n => str_of_Z n
  | VBool true => "True"
  | VBool false => "False"
  end.

Definition newline : string := String (ascii_of_nat 10) EmptyString.

(** [sep.join(parts)] *)
Fixpoint join (sep : string) (parts : list string) : string :=
  match parts with
  | [] => ""
  | [p] => p
  | p :: rest => p +:+ sep +:+ join sep rest
  end.

(** [len(s.split())]: the number of maximal runs of characters that
    are not white space. *)
Fixpoint count_words (in_word : bool) (s : string) : Z :=
  match s with
  | EmptyString => 0
  | String c s' =>
      if is_space c then count_words false s'
      else (if in_word then 0 else 1) + count_words true s'
  end.

(** *** Caching *)

Definition get_cache_key (query : string) : string :=
  let normalized := strip (lower query) in
  slice_to 32 (Hashlib.hexdigest (Hashlib.encode normalized)).

Arguments get_cache_key : simpl never.

Section Pipeline.
Context (cfg : Config) (txt : Texts) (svc : Services).

Definition get_cached_response (cache_key : string)
  : M World (option Response) :=
  if negb (CACHE_ENABLED cfg) then ret None
  else
    try_except
      (response ← table_get_item cache_key;
       match response with
       | Some item =>
           now ← time_time;
           if Qgtb (default 0%Q (item_expires_at item)) now
           then ret (item_response item)
           else ret None
       | None => ret None
       end)
      (fun e => print ("Cache read error: " +:+ exn_msg e) ;; ret None).

Definition cache_response (cache_key : string) (response : Response)
  : M World unit :=
  if negb (CACHE_ENABLED cfg) then ret tt
  else
    try_except
      (now ← time_time;
       table_put_item cache_key
         {| item_response := Some response;
            item_expires_at :=
              Some (inject_Z (py_int (now + inject_Z (CACHE_TTL cfg)))) |})
      (fun e => print ("Cache write error: " +:+ exn_msg e)).

(** *** Remote calls *)

Definition create_query_embedding (text : string) : M World (list Q) :=
  emit (EvEmbed text) ;;
  lift (embeddings_create svc text).

Definition generate_response (query context : string)
    (history : list Message) : M World (string * Z) :=
  let messages :=
    [ {| role := "system"; content := system_prompt txt |};
      {| role := "user";
         content :=
           context_header txt +:+ context +:+ question_label txt
           +:+ query +:+ answer_label txt |} ] in
  let messages :=
    match history with
    | [] => messages
    | _ => take 1 messages ++ history ++ drop 1 messages
    end in
  emit (EvGenerate messages) ;;
  lift (chat_completions svc messages).

(** *** Search *)

(** The loop over [response.matches]. *)
Fixpoint collect_results (matches : list VectorDb.PineconeMatch)
  : list SearchResult :=
  match matches with
  | [] => []
  | m :: rest =>
      if Qle_bool (SIMILARITY_THRESHOLD cfg) (VectorDb.m_score m) then
        {| chunk_id := VectorDb.m_id m;
           document_id :=
             default (VStr "") (VectorDb.m_metadata m !! "document_id");
           text := default (VStr "") (VectorDb.m_metadata m !! "text");
           score := VectorDb.m_score m;
           metadata := VectorDb.m_metadata m |} :: collect_results rest
      else collect_results rest
  end.

Definition search_pinecone (query_embedding : list Q) (top_k : Z)
    (filter_metadata : option (gmap string pyval))
  : M World (list SearchResult) :=
  let flt := VectorDb.filter_given filter_metadata in
  emit (EvSearch query_embedding top_k flt) ;;
  response ← lift (pinecone_query svc query_embedding top_k flt);
  ret (collect_results response).

(** *** Cost *)

Definition calculate_query_cost (embedding_tokens llm_tokens : Z) : Q :=
  let embedding_cost :=
    (inject_Z embedding_tokens / inject_Z 1000000 * (2 # 100))%Q in
  let llm_cost :=
    (inject_Z llm_tokens / inject_Z 1000000 * (40 # 100))%Q in
  py_round (embedding_cost + llm_cost) 6.

(** *** The pipeline *)

(** The loop of step 4, [enumerate(search_results, 1)]. *)
Fixpoint build_context (i : Z) (results : list SearchResult)
  : list string * list Source :=
  match results with
  | [] => ([], [])
  | result :: rest =>
      let source :=
        default (document_id result) (metadata result !! "filename") in
      let '(context_parts, sources) := build_context (i + 1) rest in
      (("[" +:+ str_of_Z i +:+ "] " +:+ str_of_pyval (text result))
         :: context_parts,
       {| src_document_id := document_id result;
          src_filename := source;
          src_score := py_round (score result) 3;
          src_chunk_id := chunk_id result |} :: sources)
  end.

(** The entry of [sources] that a match of the index gives rise to,
    through [collect_results] and [build_context]. *)
Definition source_of_match (m : VectorDb.PineconeMatch) : Source :=
  let document_id :=
    default (VStr "") (VectorDb.m_metadata m !! "document_id") in
  {| src_document_id := document_id;
     src_filename :=
       default document_id (VectorDb.m_metadata m !! "filename");
     src_score := py_round (VectorDb.m_score m) 3;
     src_chunk_id := VectorDb.m_id m |}.

(** Step 4 of the pipeline: the context and the sources. *)
Definition context_and_sources (search_results : list SearchResult)
  : string * list Source :=
  match search_results with
  | [] => (no_documents txt, [])
  | _ =>
      let '(context_parts, sources) := build_context 1 search_results in
      (join (newline +:+ newline) context_parts, sources)
  end.

(** [(t1 - t0) * 1000] *)
Definition ms (t1 t0 : Q) : Q := ((t1 - t0) * inject_Z 1000)%Q.

Definition process_query (query : string)
    (filter_metadata : option (gmap string pyval))
    (history : list Message) : M World (Response * QueryMetrics) :=
  start_time ← time_time;
  (* 1. Check cache *)
  let cache_key := get_cache_key query in
  cached ← get_cached_response cache_key;
  match cached with
  | Some cached =>
      print ("Cache hit for query: " +:+ slice_to 50 query +:+ "...") ;;
      t ← time_time;
      ret (cached,
           {| embedding_ms := 0; search_ms := 0; llm_ms := 0;
              total_ms := ms t start_time;
              tokens_used := 0; cost_usd := 0; cache_hit := true |})
  | None =>
      (* 2. Create query embedding *)
      embed_start ← time_time;
      query_embedding ← create_query_embedding query;
      let embedding_tokens :=
        (inject_Z (count_words false query) * (13 # 10))%Q in
      t ← time_time;
      let embed_ms := ms t embed_start in
      (* 3. Semantic search *)
      search_start ← time_time;
      search_results ←
        search_pinecone query_embedding (TOP_K cfg) filter_metadata;
      t ← time_time;
      let search_ms := ms t search_start in
      (* 4. Build context *)
      let '(context, sources) := context_and_sources search_results in
      (* 5. Generate response *)
      llm_start ← time_time;
      '(answer, llm_tokens) ← generate_response query context history;
      t ← time_time;
      let llm_ms := ms t llm_start in
      let response :=
        {| answer := answer; sources := sources;
           context_used := Z.of_nat (length search_results) |} in
      (* 6. Cache result *)
      cache_response cache_key response ;;
      t ← time_time;
      let total_ms := ms t start_time in
      ret (response,
           {| embedding_ms := py_round embed_ms 2;
              search_ms := py_round search_ms 2;
              llm_ms := py_round llm_ms 2;
              total_ms := py_round total_ms 2;
              tokens_used :=
                py_int (embedding_tokens + inject_Z llm_tokens);
              cost_usd :=
                calculate_query_cost (py_int embedding_tokens) llm_tokens;
              cache_hit := false |})
  end.

(** *** The entry point *)

(** The request body after parsing: [body.get("query")],
    [body.get("filter")], [body.get("history", [])]. *)
Record Body := mkBody {
  b_query : option string;
  b_filter : option (gmap string pyval);
  b_history : list Message
}.

(** What [json.dumps] is given. *)
Inductive Payload :=
| ErrorPayload (error : string)
| AnswerPayload (query : string) (response : Response)
                (metrics : QueryMetrics).

Record HttpResponse := mkHttpResponse {
  statusCode : Z;
  headers : list (string * string);
  body : Payload
}.

Definition handler (request : Body) : M World HttpResponse :=
  let query := strip (default "" (b_query request)) in
  let filter_metadata := b_filter request in
  let history := b_history request in
  if negb (truthy query) then
    ret {| statusCode := 400;
           headers := [("Content-Type", "application/json")];
           body := ErrorPayload "Missing 'query' parameter" |}
  else if (len query >? 1000)%Z then
    ret {| statusCode := 400;
           headers := [("Content-Type", "application/json")];
           body := ErrorPayload "Query too long (max 1000 chars)" |}
  else
    try_except
      ('(response, metrics) ← process_query query filter_metadata history;
       ret {| statusCode := 200;
              headers := [("Content-Type", "application/json");
                          ("Access-Control-Allow-Origin", "*")];
              body := AnswerPayload query response metrics |})
      (fun e =>
         print ("Query error: " +:+ exn_msg e) ;;
         ret {| statusCode := 500;
                headers := [("Content-Type", "application/json")];
                body := ErrorPayload (exn_msg e) |}).

End Pipeline.

(** Best score first, on the entries of [sources]. *)
Definition by_src_score_desc (a b : Source) : Prop :=
  Qle (src_score b) (src_score a).

(** A degraded-mode answer: a success response that carries an answer
    and no sources. *)
Definition degraded_answer (r : HttpResponse) : Prop :=
  statusCode r = 200
  /\ exists q response metrics,
       body r = AnswerPayload q response metrics /\ sources response = [].

End Query.

(** ** Concrete stores, services and worlds *)

Module Fixtures.
Import PyStr Py.

(** A stand-in metric: the score of a stored vector is its first
    coordinate. *)
Definition first_coordinate (q v : list Q) : Q :=
  match v with
  | [] => 0%Q
  | x :: _ => x
  end.

Definition empty_pinecone : VectorDb.PineconeDB :=
  {| VectorDb.batch_size := 100;
     VectorDb.index :=
       {| VectorDb.ix_metric := first_coordinate;
          VectorDb.ix_vectors := ∅ |} |}.

Definition empty_pgvector : VectorDb.PgVectorDB :=
  {| VectorDb.pg_distance := fun q v => (1 - first_coordinate v q)%Q;
     VectorDb.pg_table := ∅ |}.



Definition small_record : VectorDb.VectorRecord :=
  {| VectorDb.id := "c1"; VectorDb.vector := [1%Q];
     VectorDb.text := VStr "Refunds within 30 days.";
     VectorDb.metadata := {[ "filename" := VStr "policy.txt" ]};
     VectorDb.score := None |}.

Definition texts : Query.Texts :=
  {| Query.system_prompt := "Answer from the context only.";
     Query.context_header := "Context:";
     Query.question_label := "Question: ";
     Query.answer_label := "Answer:";
     Query.no_documents := "No relevant documents found." |}.

Definition refund_query : string := "What is the refund policy?".

Definition stored (s : Q) (doc : string) : VectorDb.StoredVector :=
  {| VectorDb.sv_values := [s];
     VectorDb.sv_metadata :=
       {[ "document_id" := VStr doc; "text" := VStr "Refunds within 30 days." ]} |}.

(** Three vectors, scored 0.9, 0.65 and 0.8 by [first_coordinate]. *)
Definition policy_index : VectorDb.PineconeIndex :=
  {| VectorDb.ix_metric := first_coordinate;
     VectorDb.ix_vectors :=
       <["a" := stored (9 # 10) "doc-a"]>
         (<["b" := stored (65 # 100) "doc-b"]>
            (<["c" := stored (8 # 10) "doc-c"]> ∅)) |}.

(** Every service answers; the search is served by [policy_index]. *)
Definition services_up : Query.Services :=
  {| Query.embeddings_create := fun _ => inr [1%Q];
     Query.pinecone_query :=
       fun q k flt => inr (VectorDb.index_query q k flt policy_index);
     Query.chat_completions := fun _ => inr ("Within 30 days.", 42) |}.

(** The vector store cannot be reached. *)
Definition services_search_down : Query.Services :=
  {| Query.embeddings_create := fun _ => inr [1%Q];
     Query.pinecone_query :=
       fun _ _ _ => inl (mkExn "ConnectionError" "vector store unreachable");
     Query.chat_completions := fun _ => inr ("Within 30 days.", 42) |}.

(** The clock reads 1000, 1001, ... seconds. *)
Definition clock_from_1000 (n : nat) : Q := inject_Z (1000 + Z.of_nat n).

Definition world_with (table : gmap string Query.CacheItem) : Query.World :=
  {| Query.clock := clock_from_1000; Query.ticks := 0;
     Query.cache_table := table; Query.cache_fault := None;
     Query.trace := [] |}.

Definition cold_world : Query.World := world_with ∅.

Definition cached_answer : Query.Response :=
  {| Query.answer := "Within 30 days."; Query.sources := [];
     Query.context_used := 0 |}.

(** The answer is cached and expires at the given second. *)
Definition cached_world (expires_at : Q) : Query.World :=
  world_with
    {[ Query.get_cache_key refund_query :=
         {| Query.item_response := Some cached_answer;
            Query.item_expires_at := Some expires_at |} ]}.

Definition refund_request : Query.Body :=
  {| Query.b_query := Some refund_query; Query.b_filter := None;
     Query.b_history := [] |}.

(** The value a run returned, or [d] when it raised. *)
Definition returned {A S} (d : A) (r : (exn + A) * S) : A :=
  match r.1 with
  | inr a => a
  | inl _ => d
  end.

End Fixtures.

(** ** The statement [PgVectorDB.search] sends *)

Module PgStatement.
Import Py.

(** A value bound to a placeholder of the statement. *)
Inductive SqlParam :=
| PVector (v : list Q)
| PInt (n : Z)
| PValue (v : pyval).

(** [params.insert(-1, value)]: before the last element. *)
Definition insert_before_last {A} (x : A) (l : list A) : list A :=
  take (length l - 1) l ++ x :: drop (length l - 1) l.

(** The conditions of the [WHERE] clause, one placeholder each, and
    the parameters [cur.execute] receives: [params] starts as
    [[query_vector, top_k]], every filter value is inserted before its
    last element, and [query_vector] is appended at the call. *)
Definition search_conditions (filter_metadata : option (gmap string pyval))
  : list string :=
  match VectorDb.filter_given filter_metadata with
  | Some f => map fst (map_to_list f)
  | None => []
  end.

Definition search_params (query_vector : list Q) (top_k : Z)
    (filter_metadata : option (gmap string pyval)) : list SqlParam :=
  let params := [PVector query_vector; PInt top_k] in
  let params :=
    match VectorDb.filter_given filter_metadata with
    | Some f =>
        fold_left (fun ps kv => insert_before_last (PValue kv.2) ps)
                  (map_to_list f) params
    | None => params
    end in
  params ++ [PVector query_vector].

(** The placeholders of the statement, in the order of its text:
    [1 - (embedding <=> %s)], the conditions, [ORDER BY embedding <=> %s],
    [LIMIT %s]. *)
Inductive Placeholder :=
| ScoreOperand
| ConditionValue (key : string)
| OrderOperand
| LimitCount.

Definition search_placeholders
    (filter_metadata : option (gmap string pyval)) : list Placeholder :=
  [ScoreOperand] ++ map ConditionValue (search_conditions filter_metadata)
    ++ [OrderOperand; LimitCount].

End PgStatement.

(** ** More concrete stores *)

Module Fixtures2.
Import PyStr Py.

Definition other_record : VectorDb.VectorRecord :=
  {| VectorDb.id := "c2"; VectorDb.vector := [(1 # 2)%Q];
     VectorDb.text := VStr "Shipping takes five days.";
     VectorDb.metadata := {[ "filename" := VStr "shipping.txt" ]};
     VectorDb.score := None |}.

(** Both stores after the upsert of [small_record] and [other_record]. *)
Definition two_pinecone : VectorDb.PineconeDB :=
  (VectorDb.Pinecone_upsert [Fixtures.small_record; other_record]
     Fixtures.empty_pinecone).2.

Definition two_pgvector : VectorDb.PgVectorDB :=
  (VectorDb.Pg_upsert [Fixtures.small_record; other_record]
     Fixtures.empty_pgvector).2.

End Fixtures2.

(** ** Notions used to state the properties of the query pipeline *)

Module QueryFacts.
Import PyStr Py Query.

(** The messages [generate_response] sends: the system instruction, the
    history, the user turn with the context and the question. *)
Definition chat_messages (txt : Texts) (query context : string)
    (history : list Message) : list Message :=
  [ {| role := "system"; content := system_prompt txt |} ]
  ++ history
  ++ [ {| role := "user";
          content :=
            context_header txt +:+ context +:+ question_label txt
            +:+ query +:+ answer_label txt |} ].

(** The calls to the cache table. *)
Definition is_cache_call (e : Event) : bool :=
  match e with
  | EvCacheGet _ | EvCachePut _ _ => true
  | _ => false
  end.

(** The world after the search of a run that missed the cache in [w1]
    and called the three services. *)
Definition after_generation (w1 : World) (events : list Event) : World :=
  {| clock := clock w1; ticks := 6 + ticks w1;
     cache_table := cache_table w1; cache_fault := cache_fault w1;
     trace := trace w1 ++ events |}.

End QueryFacts.

(** ** Notions used to state the properties of the chunker *)

Module IngestionFacts.
Import PyStr Ingestion.

(** [s] holds a character that is not white space. *)
Definition solid (s : string) : bool := negb (all_space s).

(** Every element but the last is solid. *)
Fixpoint init_solid (l : list string) : bool :=
  match l with
  | [] => true
  | [_] => true
  | p :: rest => solid p && init_solid rest
  end.

(** The characters of the pieces, one more for each piece. *)
Fixpoint total_len (l : list string) : Z :=
  match l with
  | [] => 0
  | p :: rest => len p + 1 + total_len rest
  end.

(** The buffer after the sentences [l], when no chunk is closed:
    [current_text += (" " + sentence) if current_text else sentence]. *)
Definition extend (cur : string) (l : list string) : string :=
  fold_left (fun cur s => if truthy cur then cur +:+ (" " +:+ s) else s) l cur.

(** [s] does not start with white space. *)
Definition head_solid (s : string) : bool :=
  match s with
  | EmptyString => true
  | String c _ => negb (is_space c)
  end.

(** A chunk that lies in the text before another one. *)
Definition chunk_before (a b : TextChunk) : Prop :=
  start_char a <= start_char b /\ end_char a < end_char b.

(** The offsets of a chunk span at least its text. *)
Definition span_ok (c : TextChunk) : Prop :=
  0 <= start_char c /\ len (text c) <= end_char c - start_char c.

(** The text of a chunk is not empty and has no white space at its ends. *)
Definition text_ok (c : TextChunk) : Prop :=
  truthy (text c) = true /\ strip (text c) = text c.

(** A buffer that is not empty holds a character that is not white space. *)
Definition buffer_ok (st : loop_state) : Prop :=
  truthy (current_text st) = true -> solid (current_text st) = true.

(** What the buffer weighs in the test that closes a chunk. *)
Definition buffer_len (cur : string) : Z :=
  if truthy cur then len cur + 1 else 0.

(** What holds of the local variables of [chunk_text] at the head of
    each iteration. *)
Definition loop_inv (st : loop_state) : Prop :=
  0 <= current_start st
  /\ len (current_text st) <= char_pos st - current_start st
  /\ Forall span_ok (chunks st)
  /\ Forall (fun c => start_char c <= current_start st
                      /\ end_char c < char_pos st) (chunks st)
  /\ StronglySorted chunk_before (chunks st).

End IngestionFacts.

(** ** Identifiers and file types *)

Module Ids.
Import PyStr Py.

(** [s.rsplit(sep, 1)] for a one-character separator: the text before
    and after the last [sep], or [None] where the result is [[s]]. *)
Fixpoint rsplit1 (sep : ascii) (s : string) : option (string * string) :=
  match s with
  | EmptyString => None
  | String c s' =>
      match rsplit1 sep s' with
      | Some (before, after) => Some (String c before, after)
      | None => if Ascii.eqb c sep then Some (EmptyString, s') else None
      end
  end.

Definition dot : ascii := ascii_of_nat 46.

(** [get_file_type] of the ingestion lambda. *)
Definition get_file_type (key : string) : string :=
  match rsplit1 dot key with
  | Some (_, extension) => lower extension
  | None => "txt"
  end.




(** One of [0123456789abcdef]. *)
Definition is_hex_digit (c : ascii) : bool :=
  let n := nat_of_ascii c in
  ((48 <=? n)%nat && (n <=? 57)%nat) || ((97 <=? n)%nat && (n <=? 102)%nat).

Fixpoint all_chars (p : ascii -> bool) (s : string) : bool :=
  match s with
  | EmptyString => true
  | String c s' => p c && all_chars p s'
  end.

(** [n] lower-case hexadecimal digits. *)
Definition hex_string (n : nat) (s : string) : Prop :=
  String.length s = n /\ all_chars is_hex_digit s = true.

Definition has_char (c : ascii) (s : string) : bool :=
  negb (all_chars (fun x => negb (Ascii.eqb x c)) s).

(** The number a hexadecimal digit stands for. *)
Definition hex_digit_val (c : ascii) : Z :=
  let n := Z.of_nat (nat_of_ascii c) in
  if (n <=? 57)%Z then n - 48 else n - 87.

(** The number a string of hexadecimal digits stands for, lowest digit
    first. *)
Fixpoint hex_val (s : string) : Z :=
  match s with
  | EmptyString => 0
  | String c s' => hex_digit_val c + 16 * hex_val s'
  end.

(** The text of [n] hexadecimal digits that stands for [i], lowest
    digit first. *)
Fixpoint hex_text (n : nat) (i : Z) : string :=
  match n with
  | O => EmptyString
  | S n' => String (Hashlib.hex_digit (i mod 16)) (hex_text n' (i / 16))
  end.

End Ids.

(** * Properties *)

(** ** Strings *)

Section StringProps.
Import PyStr.

Lemma append_nil_l (b : string) : "" +:+ b = b.
Proof. reflexivity. Qed.

Lemma append_cons (c : ascii) (a b : string) :
  String c a +:+ b = String c (a +:+ b).
Proof. reflexivity. Qed.

Lemma append_nil_r (a : string) : a +:+ "" = a.
Proof.
  induction a as [| c a IH]; [reflexivity |].
  rewrite append_cons, IH. reflexivity.
Qed.

Lemma append_assoc (a b c : string) : (a +:+ b) +:+ c = a +:+ (b +:+ c).
Proof.
  induction a as [| x a IH]; [reflexivity |].
  rewrite !append_cons, IH. reflexivity.
Qed.


Lemma len_append (a b : string) : len (a +:+ b) = len a + len b.
Proof.
  unfold len. induction a as [| c a IH].
  - rewrite append_nil_l. simpl. lia.
  - rewrite append_cons. simpl String.length.
    rewrite !Nat2Z.inj_succ. lia.
Qed.

Lemma len_nonneg (s : string) : 0 <= len s.
Proof. unfold len. lia. Qed.

Lemma str_drop_length (n : nat) (s : string) :
  String.length (str_drop n s) = (String.length s - n)%nat.
Proof.
  revert s. induction n as [| n IH]; intros [| c s]; simpl; auto.
Qed.


Lemma len_slice_from (k : Z) (s : string) :
  0 <= k -> len (slice_from k s) = len s - Z.min k (len s).
Proof.
  intros Hk. unfold slice_from, clamp.
  destruct (Z.ltb_spec k 0); [lia |].
  unfold len at 1. rewrite str_drop_length.
  pose proof (len_nonneg s). unfold len in *. lia.
Qed.





Lemma truthy_append_r (a b : string) :
  truthy b = true -> truthy (a +:+ b) = true.
Proof. destruct a; [rewrite append_nil_l; auto | reflexivity]. Qed.

Lemma all_space_lstrip (s : string) : all_space s = true -> lstrip s = "".
Proof.
  induction s as [| c s IH]; simpl; [reflexivity |].
  intros [Hc Hs]%andb_prop. rewrite Hc. auto.
Qed.

Lemma all_space_strip (s : string) : all_space s = true -> strip s = "".
Proof. intros H. unfold strip. rewrite all_space_lstrip; auto. Qed.

End StringProps.

(** ** The chunker *)

Section ChunkerProps.
Import PyStr Ingestion.

Example split_plain :
  split_sentences "One. Two!  Three" = ["One."; "Two!"; "Three"].
Proof. reflexivity. Qed.

Example split_trailing : split_sentences "A. " = ["A."; ""].
Proof. reflexivity. Qed.

Example split_inner_boundary : split_sentences " a.b; c" = [" a.b;"; "c"].
Proof. reflexivity. Qed.

Example split_empty : split_sentences "" = [""].
Proof. reflexivity. Qed.

Example chunk_three :
  chunk_text "One. Two. Three." 20 5
  = [ mkTextChunk "One. Two. Three." 0 0 17 ].
Proof. reflexivity. Qed.

Example chunk_letters :
  map text (chunk_text "A. B. C. D." 5 2) = ["A. B."; "B. C."; "C. D."].
Proof. reflexivity. Qed.

(** The cases of [tests/unit/test_ingestion.py]. *)
Example test_chunk_text_basic :
  let cs := chunk_text
              "Sentence one. Sentence two. Sentence three. Sentence four." 50 10 in
  (0 < length cs)%nat /\ forallb (fun c => len (text c) <=? 60) cs = true.
Proof. vm_compute. split; [lia | reflexivity]. Qed.

Example test_chunk_text_preserves_content :
  map text (chunk_text "A. B. C. D. E. F. G. H. I. J." 10 2)
  = ["A. B. C. D."; "D. E. F. G."; "G. H. I. J."].
Proof. reflexivity. Qed.

Example test_chunk_text_indices :
  map chunk_index (chunk_text "One. Two. Three." 20 5) = [0].
Proof. reflexivity. Qed.

Example test_chunk_text_empty : chunk_text "" 100 20 = [].
Proof. reflexivity. Qed.

Lemma space_not_boundary (c : ascii) :
  is_space c = true -> is_boundary_char c = false.
Proof.
  unfold is_space, is_boundary_char. intros H.
  repeat match goal with
         | |- context [ (?a =? ?b)%nat ] => destruct (Nat.eqb_spec a b)
         end; try reflexivity; subst;
    rewrite e in H; vm_compute in H; discriminate.
Qed.

(** A text of white space holds no boundary, so it is one piece. *)
Lemma split_scan_all_space (s piece : string) :
  all_space s = true ->
  split_scan (InPiece false) piece s = [piece +:+ s].
Proof.
  revert piece. induction s as [| c s IH]; intros piece; simpl.
  - intros _. rewrite append_nil_r. reflexivity.
  - intros [Hc Hs]%andb_prop.
    rewrite (space_not_boundary c Hc), IH by assumption.
    f_equal. rewrite append_assoc. reflexivity.
Qed.

Lemma split_sentences_blank (t : string) :
  all_space t = true -> split_sentences t = [t].
Proof. intros H. unfold split_sentences. rewrite split_scan_all_space; auto. Qed.

(** *** Indices *)

Lemma dense_snoc (cs : list TextChunk) (t : string) (a b : Z) :
  dense cs ->
  dense (cs ++ [ mkTextChunk t (Z.of_nat (length cs)) a b ]).
Proof.
  unfold dense. intros H.
  rewrite map_app, length_app, H. simpl.
  rewrite Nat.add_1_r, seq_S, map_app. reflexivity.
Qed.

Lemma loop_body_dense cs ov st sentence :
  dense (chunks st) -> dense (chunks (loop_body cs ov st sentence)).
Proof.
  intros H. unfold loop_body.
  destruct (closes cs st sentence); simpl; auto using dense_snoc.
Qed.

Lemma run_loop_dense cs ov sentences st :
  dense (chunks st) -> dense (chunks (run_loop cs ov sentences st)).
Proof.
  unfold run_loop. revert st.
  induction sentences as [| s sentences IH]; intros st H; simpl; auto.
  apply IH, loop_body_dense, H.
Qed.

Lemma flush_dense st : dense (chunks st) -> dense (flush st).
Proof.
  intros H. unfold flush.
  destruct (truthy (strip (current_text st))); auto using dense_snoc.
Qed.

(** *** Number of chunks *)





(** *** The carried-over text *)




(** C8.  The chunks [chunk_text] returns carry the indices 0, 1, ...,
    n-1 in the order of emission: no gap, no repeat. *)
Theorem chunk_text_indices_dense (t : string) (chunk_size overlap : Z) :
  map chunk_index (chunk_text t chunk_size overlap)
  = map Z.of_nat (seq 0 (length (chunk_text t chunk_size overlap))).
Proof.
  unfold chunk_text. apply flush_dense, run_loop_dense. reflexivity.
Qed.

(** C9.  A text that is empty or holds white space only yields no
    chunk, whatever the parameters. *)
Theorem chunk_text_blank (t : string) (chunk_size overlap : Z) :
  all_space t = true -> chunk_text t chunk_size overlap = [].
Proof.
  intros H. unfold chunk_text, run_loop.
  rewrite (split_sentences_blank t H). simpl.
  unfold loop_body, closes, flush. simpl.
  rewrite Bool.andb_false_r. simpl.
  rewrite (all_space_strip t H). reflexivity.
Qed.

Lemma chunk_text_blank_witness :
  chunk_text "" 100 20 = [] /\ chunk_text "   " 0 0 = [].
Proof.
  split; apply chunk_text_blank; reflexivity.
Defined.




Example chunk_text_overlap_10 :
  map text (chunk_text "aaaaaaaa. b." 5 10) = ["aaaaaaaa."; "aaaaaaaa. b."].
Proof. reflexivity. Qed.

Example chunk_text_overlap_4 :
  map text (chunk_text "aaaaaaaa. b." 5 4) = ["aaaaaaaa."; "aaa. b."].
Proof. reflexivity. Qed.

End ChunkerProps.

(** ** The vector store *)

Section VectorStoreProps.
Import PyStr Py VectorDb Fixtures.

Example pinecone_upsert_small :
  (Pinecone_upsert [small_record] empty_pinecone).1 = inr 1.
Proof. vm_compute. reflexivity. Qed.

Example range_step_250 : range_step 250 100 = Some [0; 100; 200].
Proof. reflexivity. Qed.

(** *** Batching is transparent *)

Lemma upsert_batches_prefix (bs : Z) (vs : list PineconeVector)
    (ix : PineconeIndex) (n : nat) :
  0 < bs ->
  let r := upsert_batches bs vs
             (map (fun k => Z.of_nat k * bs) (seq 0 n)) ix in
  r.1 = Z.of_nat (length (take (n * Z.to_nat bs) vs))
  /\ ix_metric r.2 = ix_metric ix
  /\ ix_vectors r.2 = store_all (take (n * Z.to_nat bs) vs) (ix_vectors ix).
Proof.
  intros Hbs. unfold upsert_batches. induction n as [| n IH].
  - simpl. auto.
  - rewrite seq_S, map_app, fold_left_app.
    cbn [fold_left map Nat.add fst snd].
    destruct IH as (IH1 & IH2 & IH3).
    set (acc := fold_left _ _ _) in *.
    assert (Hbatch :
      list_slice (Z.of_nat n * bs) (Z.of_nat n * bs + bs) vs
      = take (Z.to_nat bs) (drop (n * Z.to_nat bs) vs)).
    { unfold list_slice. f_equal; [f_equal; lia | f_equal; lia]. }
    rewrite Hbatch.
    assert (Htake :
      take (S n * Z.to_nat bs) vs
      = take (n * Z.to_nat bs) vs
        ++ take (Z.to_nat bs) (drop (n * Z.to_nat bs) vs)).
    { rewrite take_take_drop. f_equal. lia. }
    rewrite Htake. split; [| split].
    + rewrite IH1, length_app. lia.
    + exact IH2.
    + unfold index_upsert. cbn [ix_vectors]. rewrite IH3.
      unfold store_all. rewrite fold_left_app. reflexivity.
Qed.

Lemma upsert_batches_all (bs : Z) (vs : list PineconeVector)
    (ix : PineconeIndex) (starts : list Z) :
  0 < bs ->
  range_step (Z.of_nat (length vs)) bs = Some starts ->
  upsert_batches bs vs starts ix
  = (Z.of_nat (length vs),
     {| ix_metric := ix_metric ix;
        ix_vectors := store_all vs (ix_vectors ix) |}).
Proof.
  intros Hbs. unfold range_step.
  destruct (Z.eqb_spec bs 0); [lia |].
  destruct (Z.ltb_spec bs 0); [lia |].
  intros [= <-].
  set (cnt := Z.to_nat ((Z.of_nat (length vs) + bs - 1) / bs)).
  destruct (upsert_batches_prefix bs vs ix cnt Hbs) as (H1 & H2 & H3).
  assert (Hn : (length vs <= cnt * Z.to_nat bs)%nat).
  { subst cnt.
    assert (Z.of_nat (length vs) <= ((Z.of_nat (length vs) + bs - 1) / bs) * bs).
    { pose proof (Z.div_mod (Z.of_nat (length vs) + bs - 1) bs ltac:(lia)).
      pose proof (Z.mod_pos_bound (Z.of_nat (length vs) + bs - 1) bs Hbs).
      nia. }
    assert (0 <= (Z.of_nat (length vs) + bs - 1) / bs).
    { apply Z.div_pos; lia. }
    nia. }
  rewrite take_ge in H1, H3 by exact Hn.
  destruct (upsert_batches _ _ _ _) as [total [met vec]]. simpl in *.
  subst. reflexivity.
Qed.

(** *** What an upsert leaves under an id *)

Lemma store_all_last (pre post : list PineconeVector) (v : PineconeVector)
    (m : gmap string StoredVector) :
  pv_id v ∉ map pv_id post ->
  store_all (pre ++ v :: post) m !! pv_id v
  = Some {| sv_values := pv_values v; sv_metadata := pv_metadata v |}.
Proof.
  unfold store_all. rewrite fold_left_app. simpl.
  fold (store_all pre m). generalize (store_all pre m). intros m'.
  assert (Hgen : forall (l : list PineconeVector) (m0 : gmap string StoredVector) x,
    pv_id v ∉ map pv_id l -> m0 !! pv_id v = Some x ->
    store_all l m0 !! pv_id v = Some x).
  { unfold store_all.
    induction l as [| y l IH]; intros m0 x Hnot Hm0; simpl; [exact Hm0 |].
    simpl in Hnot. apply not_elem_of_cons in Hnot as [Hne Hnot].
    apply IH; [exact Hnot |].
    rewrite lookup_insert_ne by congruence. exact Hm0. }
  intros Hnot. apply (Hgen post); [exact Hnot |]. apply lookup_insert_eq.
Qed.

Lemma pinecone_vectors_split (pre post : list VectorRecord) (r : VectorRecord)
    (vs : list PineconeVector) :
  pinecone_vectors (pre ++ r :: post) = inr vs ->
  exists vpre v vpost,
    vs = vpre ++ v :: vpost
    /\ pinecone_vector r = inr v
    /\ map pv_id vpost = map id post.
Proof.
  revert vs. induction pre as [| p pre IH]; intros vs; simpl.
  - destruct (pinecone_vector r) as [e | v] eqn:Hv; [discriminate |].
    destruct (pinecone_vectors post) as [e | vpost] eqn:Hpost; [discriminate |].
    intros [= <-]. exists [], v, vpost. repeat split.
    clear Hv. revert vpost Hpost.
    induction post as [| x post IHp]; intros vpost; simpl.
    + intros [= <-]. reflexivity.
    + unfold pinecone_vector at 1.
      destruct (text_prefix (text x)); [discriminate |].
      destruct (pinecone_vectors post) eqn:Hp; [discriminate |].
      intros [= <-]. simpl. f_equal. apply IHp. reflexivity.
  - destruct (pinecone_vector p) as [e | v0]; [discriminate |].
    destruct (pinecone_vectors (pre ++ r :: post)) as [e | vs'] eqn:Hrest;
      [discriminate |].
    intros [= <-].
    destruct (IH vs' eq_refl) as (vpre & v & vpost & -> & Hv & Hids).
    exists (v0 :: vpre), v, vpost. auto.
Qed.

Lemma pinecone_vectors_length (records : list VectorRecord)
    (vs : list PineconeVector) :
  pinecone_vectors records = inr vs -> length vs = length records.
Proof.
  revert vs. induction records as [| r records IH]; intros vs; simpl.
  - intros [= <-]. reflexivity.
  - destruct (pinecone_vector r); [discriminate |].
    destruct (pinecone_vectors records); [discriminate |].
    intros [= <-]. simpl. f_equal. auto.
Qed.

(** The state an upsert that returns leaves behind. *)
Lemma Pinecone_upsert_inr (records : list VectorRecord) (db db' : PineconeDB)
    (n : Z) :
  0 < batch_size db ->
  Pinecone_upsert records db = (inr n, db') ->
  exists vs,
    pinecone_vectors records = inr vs
    /\ n = Z.of_nat (length records)
    /\ ix_vectors (index db') = store_all vs (ix_vectors (index db))
    /\ ix_metric (index db') = ix_metric (index db).
Proof.
  intros Hbs. unfold Pinecone_upsert.
  destruct records as [| r0 records0] eqn:Hrec.
  - intros [= <- <-]. exists []. auto.
  - rewrite <- Hrec. clear Hrec r0 records0.
    unfold mbind, M_bind, bind, lift, get_state, raise, modify, mret, M_ret, ret.
    destruct (pinecone_vectors records) as [e | vs] eqn:Hvs; [discriminate |].
    destruct (range_step (Z.of_nat (length vs)) (batch_size db))
      as [starts |] eqn:Hstarts.
    2:{ unfold range_step in Hstarts.
        destruct (Z.eqb_spec (batch_size db) 0); [lia |].
        destruct (Z.ltb_spec (batch_size db) 0); discriminate. }
    rewrite (upsert_batches_all _ _ _ _ Hbs Hstarts).
    intros [= <- <-]. exists vs. simpl.
    rewrite (pinecone_vectors_length _ _ Hvs). auto.
Qed.


(** *** What a search returns *)

Lemma index_query_In (q : list Q) (k : Z) (flt : option (gmap string pyval))
    (ix : PineconeIndex) (m : PineconeMatch) :
  In m (index_query q k flt ix) ->
  exists sv, ix_vectors ix !! m_id m = Some sv
             /\ m_metadata m = sv_metadata sv.
Proof.
  unfold index_query. intros H.
  apply list_elem_of_In, subseteq_take in H.
  rewrite merge_sort_Permutation in H.
  apply list_elem_of_In, filter_In in H as [H _].
  apply in_map_iff in H as ([i sv] & <- & H).
  apply list_elem_of_In, elem_of_map_to_list in H.
  exists sv. auto.
Qed.


Lemma pg_insert_all_last (pre post : list VectorRecord) (r : VectorRecord)
    (t : gmap string PgRow) :
  id r ∉ map id post ->
  fold_left (fun t r => pg_insert r t) (pre ++ r :: post) t !! id r
  = Some {| row_embedding := vector r; row_text := text r;
            row_metadata := metadata r |}.
Proof.
  rewrite fold_left_app. simpl.
  generalize (fold_left (fun t r => pg_insert r t) pre t). intros t'.
  assert (Hgen : forall (l : list VectorRecord) (t0 : gmap string PgRow) x,
    id r ∉ map id l -> t0 !! id r = Some x ->
    fold_left (fun t r => pg_insert r t) l t0 !! id r = Some x).
  { induction l as [| y l IH]; intros t0 x Hnot Ht0; simpl; [exact Ht0 |].
    simpl in Hnot. apply not_elem_of_cons in Hnot as [Hne Hnot].
    apply IH; [exact Hnot |]. unfold pg_insert.
    rewrite lookup_insert_ne by congruence. exact Ht0. }
  intros Hnot. apply Hgen; [exact Hnot |]. unfold pg_insert.
  apply lookup_insert_eq.
Qed.

Lemma Pinecone_search_inr q k flt db found st :
  Pinecone_search q k flt db = (inr found, st) ->
  found = map (fun m =>
                 {| id := m_id m; vector := [];
                    text := default (VStr "") (m_metadata m !! "text");
                    metadata := m_metadata m; score := Some (m_score m) |})
              (index_query q k (filter_given flt) (index db)).
Proof. intros [= <- _]. reflexivity. Qed.

Lemma Pg_upsert_inr (records : list VectorRecord) (db db' : PgVectorDB) (n : Z) :
  Pg_upsert records db = (inr n, db') ->
  n = Z.of_nat (length records)
  /\ pg_table db' = fold_left (fun t r => pg_insert r t) records (pg_table db).
Proof.
  unfold Pg_upsert. destruct records as [| r0 records0].
  - intros [= <- <-]. auto.
  - intros [= <- <-]. auto.
Qed.

(** The embedding handler cuts the text in the same way. *)
Lemma store_vectors_pinecone_text (r : Embedding.EmbeddingResult)
    (v : PineconeVector) (s : string) :
  Embedding.pinecone_vector r = inr v ->
  Embedding.text r = VStr s ->
  Embedding.metadata r !! "text" = None ->
  pv_metadata v !! "text" = Some (VStr (slice_to 1000 s)).
Proof.
  unfold Embedding.pinecone_vector. intros Hv Htext Hmeta.
  rewrite Htext in Hv. simpl in Hv. injection Hv as <-. simpl.
  rewrite lookup_union_r by exact Hmeta. apply lookup_insert_eq.
Qed.





(** *** Deleting *)

(** The managed store reports the number of ids it was given. *)
Lemma Pinecone_delete_returns (ids : list string) (db : PineconeDB) :
  exists db',
    Pinecone_delete ids db = (inr (Z.of_nat (length ids)), db')
    /\ forall i, ix_vectors (index db') !! i
                 = if decide (i ∈ ids) then None else ix_vectors (index db) !! i.
Proof.
  assert (Hfold : forall (l : list string) (m : gmap string StoredVector) i,
    fold_left (fun m i => delete i m) l m !! i
    = if decide (i ∈ l) then None else m !! i).
  { induction l as [| x l IH]; intros m i; simpl.
    - destruct (decide (i ∈ [])) as [H |]; [inversion H | reflexivity].
    - rewrite IH. destruct (decide (i ∈ l)) as [Hl | Hl].
      + rewrite decide_True by (right; exact Hl). reflexivity.
      + destruct (decide (i = x)) as [-> | Hne].
        * rewrite decide_True by left. apply lookup_delete_eq.
        * rewrite decide_False.
          -- apply lookup_delete_ne. congruence.
          -- intros [? | ?]%elem_of_cons; contradiction. }
  unfold Pinecone_delete. destruct ids as [| i0 ids0] eqn:Hids.
  - exists db. split; [reflexivity |]. intros i.
    destruct (decide (i ∈ [])) as [H |]; [inversion H | reflexivity].
  - rewrite <- Hids. eexists. split; [reflexivity |]. intros i. simpl.
    apply Hfold.
Qed.

(** The relational store reports the number of rows that went away. *)
Lemma Pg_delete_returns (ids : list string) (db : PgVectorDB) :
  exists n db',
    Pg_delete ids db = (inr n, db')
    /\ n = Z.of_nat (size (pg_table db)) - Z.of_nat (size (pg_table db'))
    /\ forall i, pg_table db' !! i
                 = if decide (i ∈ ids) then None else pg_table db !! i.
Proof.
  assert (Hsize : forall t : gmap string PgRow,
    size t = (size (filter (fun kv : string * PgRow => kv.1 ∈ ids) t)
              + size (filter (fun kv : string * PgRow => kv.1 ∉ ids) t))%nat).
  { intros t.
    rewrite <- map_size_disj_union by apply map_disjoint_filter_complement.
    rewrite map_filter_union_complement. reflexivity. }
  assert (Hlook : forall (t : gmap string PgRow) i,
    filter (fun kv : string * PgRow => kv.1 ∉ ids) t !! i
    = if decide (i ∈ ids) then None else t !! i).
  { intros t i. rewrite map_lookup_filter.
    destruct (t !! i) as [row |] eqn:Hrow; simpl.
    - destruct (decide (i ∈ ids)).
      + rewrite option_guard_False by auto. reflexivity.
      + rewrite option_guard_True by auto. reflexivity.
    - destruct (decide (i ∈ ids)); reflexivity. }
  unfold Pg_delete. destruct ids as [| i0 ids0] eqn:Hids.
  - exists 0, db. split; [reflexivity |]. split; [lia |]. intros i.
    destruct (decide (i ∈ [])) as [H |]; [inversion H | reflexivity].
  - rewrite <- Hids in *. eexists _, _. split; [reflexivity |]. simpl.
    split; [| apply Hlook].
    pose proof (Hsize (pg_table db)). lia.
Qed.

(** C2 fails on the managed store.  With one vector stored under
    ["c1"], deleting ["c1"] and the unknown ["ghost"] succeeds and
    removes one vector, yet the count returned is 2; the relational
    store returns 1 for the same request. *)
Theorem Pinecone_delete_counts_ids_not_deletions :
  let db := (Pinecone_upsert [small_record] empty_pinecone).2 in
  let pg := (Pg_upsert [small_record] empty_pgvector).2 in
  size (ix_vectors (index db)) = 1%nat
  /\ size (pg_table pg) = 1%nat
  /\ (exists db',
        Pinecone_delete ["c1"; "ghost"] db = (inr 2, db')
        /\ size (ix_vectors (index db')) = 0%nat)
  /\ (exists pg',
        Pg_delete ["c1"; "ghost"] pg = (inr 1, pg')
        /\ size (pg_table pg') = 0%nat)
  /\ (exists db', Pinecone_delete ["ghost"] empty_pinecone = (inr 1, db')).
Proof.
  split; [vm_compute; reflexivity |].
  split; [vm_compute; reflexivity |].
  split; [eexists; split; vm_compute; reflexivity |].
  split; [eexists; split; vm_compute; reflexivity |].
  eexists. vm_compute. reflexivity.
Qed.

End VectorStoreProps.

(** ** The query cache and the query pipeline *)

Ltac run :=
  unfold mbind, Py.M_bind, Py.bind, mret, Py.M_ret, Py.ret, Py.lift,
    Py.raise, Py.try_except, Py.get_state, Py.modify,
    Query.print, Query.emit, Query.time_time; simpl.

Section CacheProps.
Import PyStr Py Query Fixtures.


(** The digest on the test vectors of the standard, on a message of two
    blocks and on a text with code points above 127. *)
Example sha256_abc :
  Hashlib.hexdigest (Hashlib.encode "abc")
  = "ba7816bf8f01cfea414140de5dae2223b00361a396177a9cb410ff61f20015ad".
Proof. vm_compute. reflexivity. Qed.

Example sha256_empty :
  Hashlib.hexdigest (Hashlib.encode "")
  = "e3b0c44298fc1c149afbf4c8996fb92427ae41e4649b934ca495991b7852b855".
Proof. vm_compute. reflexivity. Qed.

Example sha256_two_blocks :
  Hashlib.hexdigest (Hashlib.encode (replicate_char 70 "a"))
  = "6bd5e5034855a11241f0dee8fc72850ffd9955b28347a86428b5fa19119f6ad0".
Proof. vm_compute. reflexivity. Qed.

Example sha256_latin1 :
  Hashlib.hexdigest
    (Hashlib.encode (String (ascii_of_nat 233)
                       (String "t" (String (ascii_of_nat 233) ""))))
  = "bd010c64132bf5cae8aea89f6762515727dcf68a5dd1de813c87f50a16c4513c".
Proof. vm_compute. reflexivity. Qed.

Example get_cache_key_hello :
  get_cache_key "hello" = "2cf24dba5fb0a30e26e83b2ac5b9e29e".
Proof. vm_compute. reflexivity. Qed.

Lemma Qgtb_false (a b : Q) : Qle a b -> Qgtb a b = false.
Proof.
  intros H. unfold Qgtb. apply Qle_bool_iff in H. rewrite H. reflexivity.
Qed.

(** C6.  An entry whose [expires_at] is not after the time of the read
    is not returned, and the read leaves the table as it was: the entry
    is still there. *)
Theorem expired_entry_is_a_miss (cfg : Config) (key : string)
    (item : CacheItem) (expires_at : Q) (w : World) :
  cache_table w !! key = Some item ->
  item_expires_at item = Some expires_at ->
  Qle expires_at (clock w (ticks w)) ->
  exists w',
    get_cached_response cfg key w = (inr None, w')
    /\ cache_table w' = cache_table w
    /\ cache_table w' !! key = Some item.
Proof.
  intros Hitem Hexp Hle. unfold get_cached_response, table_get_item.
  destruct (CACHE_ENABLED cfg); simpl.
  2:{ exists w. auto. }
  run. destruct (cache_fault w) as [e |]; simpl.
  - eexists. split; [reflexivity |]. auto.
  - rewrite Hitem. simpl. rewrite Hexp. simpl.
    rewrite (Qgtb_false _ _ Hle). eexists. split; [reflexivity |]. auto.
Qed.

Lemma expired_entry_is_a_miss_witness :
  exists w',
    get_cached_response default_config (get_cache_key refund_query)
      (cached_world 500)
    = (inr None, w')
    /\ cache_table w' = cache_table (cached_world 500).
Proof.
  destruct (expired_entry_is_a_miss default_config
              (get_cache_key refund_query)
              {| item_response := Some cached_answer;
                 item_expires_at := Some 500%Q |}
              500%Q (cached_world 500))
    as (w' & Hget & Htable & _).
  - vm_compute. reflexivity.
  - reflexivity.
  - vm_compute. discriminate.
  - exists w'. auto.
Defined.

End CacheProps.

Section RoundingProps.
Import Query.


Lemma round_half_even_bounds (num den : Z) :
  0 < den ->
  num / den <= round_half_even num den <= num / den + 1.
Proof.
  intros Hd. unfold round_half_even.
  destruct (2 * (num mod den) <? den); [lia |].
  destruct (den <? 2 * (num mod den)); [lia |].
  destruct (Z.even (num / den)); lia.
Qed.

(** Rounding keeps the order. *)
Lemma round_half_even_mono (n1 d1 n2 d2 : Z) :
  0 < d1 -> 0 < d2 ->
  n1 * d2 <= n2 * d1 ->
  round_half_even n1 d1 <= round_half_even n2 d2.
Proof.
  intros H1 H2 Hle.
  pose proof (Z.div_mod n1 d1 ltac:(lia)) as E1.
  pose proof (Z.div_mod n2 d2 ltac:(lia)) as E2.
  pose proof (Z.mod_pos_bound n1 d1 H1) as B1.
  pose proof (Z.mod_pos_bound n2 d2 H2) as B2.
  pose proof (round_half_even_bounds n1 d1 H1) as R1.
  pose proof (round_half_even_bounds n2 d2 H2) as R2.
  assert (Hf : n1 / d1 <= n2 / d2).
  { destruct (Z_lt_le_dec (n2 / d2) (n1 / d1)) as [Hlt |]; [| assumption].
    exfalso.
    assert (n2 < (n2 / d2 + 1) * d2) by nia.
    assert ((n2 / d2 + 1) * d1 <= n1) by nia.
    nia. }
  destruct (Z.eq_dec (n1 / d1) (n2 / d2)) as [Heq | Hne]; [| lia].
  unfold round_half_even in *. rewrite <- Heq in *.
  set (f := n1 / d1) in *. set (r1 := n1 mod d1) in *.
  set (r2 := n2 mod d2) in *.
  assert (Hr : r1 * d2 <= r2 * d1) by nia.
  destruct (Z.ltb_spec (2 * r1) d1).
  { destruct (2 * r2 <? d2); [lia |].
    destruct (d2 <? 2 * r2); [lia |].
    destruct (Z.even f); lia. }
  destruct (Z.ltb_spec d1 (2 * r1)).
  { assert (d2 < 2 * r2) by nia.
    destruct (Z.ltb_spec (2 * r2) d2); [lia |].
    destruct (Z.ltb_spec d2 (2 * r2)); lia. }
  assert (d2 <= 2 * r2) by nia.
  destruct (Z.ltb_spec (2 * r2) d2); [lia |].
  destruct (Z.ltb_spec d2 (2 * r2)); [destruct (Z.even f); lia |].
  lia.
Qed.

Lemma py_round_mono (x y : Q) (ndigits : nat) :
  Qle x y -> Qle (py_round x ndigits) (py_round y ndigits).
Proof.
  intros Hle. unfold py_round, Qle in *. simpl.
  set (scale := 10 ^ Z.of_nat ndigits).
  assert (Hs : 0 < scale) by (apply Z.pow_pos_nonneg; lia).
  apply Z.mul_le_mono_nonneg_r; [lia |].
  apply round_half_even_mono; try lia. nia.
Qed.

End RoundingProps.

Section PipelineProps.
Import PyStr Py Query Fixtures.




(** *** The cache read and write, seen from the pipeline *)

(** A read returns, keeps the table, and adds to the trace the call to
    the table and, on a failure, a printed line. *)
Lemma get_cached_response_effect (cfg : Config) (key : string) (w : World) :
  exists r w' added,
    get_cached_response cfg key w = (inr r, w')
    /\ cache_table w' = cache_table w
    /\ cache_fault w' = cache_fault w
    /\ clock w' = clock w
    /\ trace w' = trace w ++ added
    /\ Forall (fun e => is_remote_call e = false /\ is_after_search e = false)
              added.
Proof.
  unfold get_cached_response, table_get_item.
  destruct (CACHE_ENABLED cfg); simpl.
  2:{ exists None, w, []. rewrite app_nil_r. repeat split; auto. }
  run. destruct (cache_fault w) as [e |] eqn:Hf; simpl.
  - eexists None, _, [_; _]. simpl. rewrite <- app_assoc. simpl.
    repeat split; auto.
  - destruct (cache_table w !! key) as [item |]; simpl.
    + destruct (Qgtb _ _); eexists _, _, [_]; simpl; repeat split; auto.
    + eexists None, _, [_]. simpl. repeat split; auto.
Qed.

(** A hit adds exactly the call to the table. *)
Lemma get_cached_response_hit (cfg : Config) (key : string) (w w' : World)
    (cached : Response) :
  get_cached_response cfg key w = (inr (Some cached), w') ->
  trace w' = trace w ++ [EvCacheGet key]
  /\ clock w' = clock w /\ ticks w' = S (ticks w)
  /\ cache_table w' = cache_table w.
Proof.
  unfold get_cached_response, table_get_item.
  destruct (CACHE_ENABLED cfg); simpl; [| intros [= ]].
  run. destruct (cache_fault w) as [e |]; simpl; [intros [= ] |].
  destruct (cache_table w !! key) as [item |]; simpl; [| intros [= ]].
  destruct (Qgtb _ _); intros [= Hr <-]; simpl; auto.
Qed.

Lemma cache_response_effect (cfg : Config) (key : string) (r : Response)
    (w : World) :
  exists w', cache_response cfg key r w = (inr tt, w').
Proof.
  unfold cache_response, table_put_item.
  destruct (CACHE_ENABLED cfg); simpl; [| eexists; reflexivity].
  run. destruct (cache_fault w); simpl; eexists; reflexivity.
Qed.

(** C5.  When the cache read of the pipeline returns a response, the
    pipeline returns that response with [cache_hit] set and every other
    figure but the total time at zero, and the only things it did are
    the read of the cache table and one printed line: no embedding,
    search or generation call. *)
Theorem cache_hit_short_circuits (cfg : Config) (txt : Texts)
    (svc : Services) (query : string)
    (filter_metadata : option (gmap string pyval))
    (history : list Message) (w w1 : World) (cached : Response) :
  get_cached_response cfg (get_cache_key query) (tick w)
    = (inr (Some cached), w1) ->
  exists metrics w2,
    process_query cfg txt svc query filter_metadata history w
      = (inr (cached, metrics), w2)
    /\ cache_hit metrics = true
    /\ embedding_ms metrics = 0%Q
    /\ search_ms metrics = 0%Q
    /\ llm_ms metrics = 0%Q
    /\ tokens_used metrics = 0
    /\ cost_usd metrics = 0%Q
    /\ trace w2
       = trace w ++ [ EvCacheGet (get_cache_key query);
                      EvPrint ("Cache hit for query: "
                               +:+ slice_to 50 query +:+ "...") ]
    /\ Forall (fun e => is_remote_call e = false)
              (drop (length (trace w)) (trace w2)).
Proof.
  intros Hhit. destruct (get_cached_response_hit _ _ _ _ _ Hhit) as (Htr & _).
  unfold process_query.
  unfold mbind at 1, M_bind at 1, bind at 1, time_time at 1.
  unfold mbind at 1, M_bind at 1, bind at 1. rewrite Hhit.
  run. eexists _, _. split; [reflexivity |]. simpl.
  repeat (split; [reflexivity |]).
  rewrite Htr. simpl. rewrite <- app_assoc. simpl.
  split; [reflexivity |].
  rewrite drop_app_length. repeat constructor.
Qed.

Lemma cache_hit_short_circuits_witness :
  exists metrics w2,
    process_query default_config texts services_up refund_query None []
      (cached_world 5000)
    = (inr (cached_answer, metrics), w2)
    /\ cache_hit metrics = true.
Proof.
  destruct (cache_hit_short_circuits default_config texts services_up
              refund_query None [] (cached_world 5000)
              (get_cached_response default_config
                 (get_cache_key refund_query) (tick (cached_world 5000))).2
              cached_answer)
    as (metrics & w2 & Hrun & Hhit & _).
  - vm_compute. reflexivity.
  - exists metrics, w2. auto.
Defined.



Lemma build_context_sources (cfg : Config) (ms : list VectorDb.PineconeMatch) (i : Z) :
  (build_context i (collect_results cfg ms)).2
  = map source_of_match
      (List.filter
         (fun m => Qle_bool (SIMILARITY_THRESHOLD cfg) (VectorDb.m_score m))
         ms).
Proof.
  revert i. induction ms as [| m ms IH]; intros i; simpl; [reflexivity |].
  destruct (Qle_bool _ _); simpl; [| apply IH].
  specialize (IH (i + 1)).
  destruct (build_context (i + 1) (collect_results cfg ms)) as [parts srcs].
  simpl in *. rewrite IH. reflexivity.
Qed.

(** What a run that misses the cache and returns has gone through. *)
Lemma process_query_miss_inv (cfg : Config) (txt : Texts) (svc : Services)
    (query : string) (flt : option (gmap string pyval))
    (history : list Message) (w w' : World)
    (response : Response) (metrics : QueryMetrics) :
  process_query cfg txt svc query flt history w
    = (inr (response, metrics), w') ->
  cache_hit metrics = false ->
  exists v ms,
    embeddings_create svc query = inr v
    /\ pinecone_query svc v (TOP_K cfg) (VectorDb.filter_given flt) = inr ms
    /\ sources response = (build_context 1 (collect_results cfg ms)).2
    /\ context_used response = Z.of_nat (length (collect_results cfg ms)).
Proof.
  intros Hrun Hmiss. unfold process_query in Hrun.
  unfold mbind at 1, M_bind at 1, bind at 1, time_time at 1 in Hrun.
  unfold mbind at 1, M_bind at 1, bind at 1 in Hrun.
  destruct (get_cached_response_effect cfg (get_cache_key query) (tick w))
    as (r & w1 & added & Hget & _).
  rewrite Hget in Hrun.
  destruct r as [cached |].
  { revert Hrun. run. intros [= _ <- _]. discriminate. }
  unfold create_query_embedding, search_pinecone, generate_response in Hrun.
  revert Hrun. run.
  destruct (embeddings_create svc query) as [e | v] eqn:Hembed;
    [discriminate |].
  destruct (pinecone_query svc v (TOP_K cfg) (VectorDb.filter_given flt))
    as [e | ms] eqn:Hsearch; [discriminate |].
  destruct (context_and_sources txt (collect_results cfg ms))
    as [context srcs] eqn:Hctx.
  match goal with
  | |- context [chat_completions svc ?msgs] =>
      destruct (chat_completions svc msgs) as [e | [ans toks]]
  end; [discriminate |].
  match goal with
  | |- context [cache_response cfg ?k ?r ?w0] =>
      destruct (cache_response_effect cfg k r w0) as (w2 & ->)
  end.
  intros [= <- _ _]. exists v, ms. simpl.
  split; [reflexivity |]. split; [exact Hsearch |]. split; [| reflexivity].
  unfold context_and_sources in Hctx.
  destruct (collect_results cfg ms) as [| r0 rest]; [injection Hctx; auto |].
  destruct (build_context 1 (r0 :: rest)). injection Hctx. auto.
Qed.


(** *** Order *)

Lemma by_score_desc_trans : Transitive VectorDb.by_score_desc.
Proof.
  intros a b c Hab Hbc. unfold VectorDb.by_score_desc in *.
  eapply Qle_trans; eassumption.
Qed.

Lemma by_score_desc_total : Total VectorDb.by_score_desc.
Proof.
  intros a b. unfold VectorDb.by_score_desc.
  destruct (Qlt_le_dec (VectorDb.m_score a) (VectorDb.m_score b)) as [H | H].
  - right. apply Qlt_le_weak, H.
  - left. exact H.
Qed.

Lemma StronglySorted_List_filter {A} (R : relation A) (f : A -> bool)
    (l : list A) :
  StronglySorted R l -> StronglySorted R (List.filter f l).
Proof.
  induction 1 as [| x l Hl IH Hx]; simpl; [constructor |].
  destruct (f x); [| exact IH].
  constructor; [exact IH |].
  apply List.Forall_forall. intros y Hy.
  apply filter_In in Hy as [Hy _].
  revert y Hy. apply List.Forall_forall, Hx.
Qed.

Lemma StronglySorted_map {A B} (R : relation A) (R' : relation B)
    (g : A -> B) (l : list A) :
  (forall a b, R a b -> R' (g a) (g b)) ->
  StronglySorted R l -> StronglySorted R' (map g l).
Proof.
  intros Hg. induction 1 as [| x l Hl IH Hx]; simpl; constructor; [exact IH |].
  apply List.Forall_forall. intros y Hy.
  apply in_map_iff in Hy as (a & <- & Ha). apply Hg.
  revert a Ha. apply List.Forall_forall, Hx.
Qed.

Lemma Sorted_take {A} (R : relation A) (n : nat) (l : list A) :
  Sorted R l -> Sorted R (take n l).
Proof.
  revert n. induction l as [| x l IH]; intros [| n] Hs; simpl;
    try constructor.
  - apply IH. inversion Hs; assumption.
  - inversion Hs as [| ? ? Hl Hhd]; subst.
    destruct l as [| y l]; destruct n; simpl; constructor.
    inversion Hhd; assumption.
Qed.

(** The modelled index answers best score first. *)
Lemma index_query_sorted (q : list Q) (k : Z)
    (flt : option (gmap string pyval)) (ix : VectorDb.PineconeIndex) :
  Sorted VectorDb.by_score_desc (VectorDb.index_query q k flt ix).
Proof.
  unfold VectorDb.index_query. apply Sorted_take, Sorted_merge_sort.
  exact by_score_desc_total.
Qed.

(** Filtering by the threshold and rounding the scores keep the order. *)
Lemma sources_of_sorted_matches (cfg : Config)
    (ms : list VectorDb.PineconeMatch) :
  Sorted VectorDb.by_score_desc ms ->
  StronglySorted by_src_score_desc
    (map source_of_match
       (List.filter
          (fun m => Qle_bool (SIMILARITY_THRESHOLD cfg) (VectorDb.m_score m))
          ms)).
Proof.
  intros Hsorted.
  apply (StronglySorted_map VectorDb.by_score_desc).
  - intros a b Hab. unfold by_src_score_desc, source_of_match. simpl.
    apply py_round_mono, Hab.
  - apply StronglySorted_List_filter.
    apply Sorted.Sorted_StronglySorted; [| exact Hsorted].
    intros a b c. apply by_score_desc_trans.
Qed.

(** With the search served by the modelled index, [sources] is in
    descending order of score on every run that misses the cache. *)
Lemma sources_sorted_with_modelled_index (cfg : Config) (txt : Texts)
    (embed : string -> exn + list Q)
    (chat : list Message -> exn + (string * Z))
    (ix : VectorDb.PineconeIndex) (query : string)
    (flt : option (gmap string pyval)) (history : list Message)
    (w w' : World) (response : Response) (metrics : QueryMetrics) :
  process_query cfg txt
    {| embeddings_create := embed;
       pinecone_query := fun q k f => inr (VectorDb.index_query q k f ix);
       chat_completions := chat |}
    query flt history w
    = (inr (response, metrics), w') ->
  cache_hit metrics = false ->
  StronglySorted by_src_score_desc (sources response).
Proof.
  intros Hrun Hmiss.
  destruct (process_query_miss_inv _ _ _ _ _ _ _ _ _ _ Hrun Hmiss)
    as (v & ms & _ & Hsearch & Hsrc & _).
  rewrite build_context_sources in Hsrc. rewrite Hsrc.
  apply sources_of_sorted_matches.
  simpl in Hsearch. injection Hsearch as <-. apply index_query_sorted.
Qed.

(** C4.  When the pipeline misses the cache and returns, [sources] is,
    entry for entry and in the order of the index's answer, the matches
    whose score is at least the threshold: a match below it gives no
    entry, every other match gives one.  The index answers best score
    first, and then [sources] is in descending order of score. *)
Theorem sources_are_the_matches_above_threshold (cfg : Config)
    (txt : Texts) (svc : Services) (query : string)
    (flt : option (gmap string pyval)) (history : list Message)
    (w w' : World) (response : Response) (metrics : QueryMetrics) :
  process_query cfg txt svc query flt history w
    = (inr (response, metrics), w') ->
  cache_hit metrics = false ->
  exists v ms,
    embeddings_create svc query = inr v
    /\ pinecone_query svc v (TOP_K cfg) (VectorDb.filter_given flt) = inr ms
    /\ sources response
       = map source_of_match
           (List.filter
              (fun m => Qle_bool (SIMILARITY_THRESHOLD cfg) (VectorDb.m_score m))
              ms)
    /\ (forall s, In s (sources response) ->
          exists m, In m ms
                    /\ Qle (SIMILARITY_THRESHOLD cfg) (VectorDb.m_score m)
                    /\ s = source_of_match m)
    /\ (forall m, In m ms ->
          Qle (SIMILARITY_THRESHOLD cfg) (VectorDb.m_score m) ->
          In (source_of_match m) (sources response))
    /\ (Sorted VectorDb.by_score_desc ms ->
        StronglySorted by_src_score_desc (sources response)).
Proof.
  intros Hrun Hmiss.
  destruct (process_query_miss_inv _ _ _ _ _ _ _ _ _ _ Hrun Hmiss)
    as (v & ms & Hembed & Hsearch & Hsrc & _).
  rewrite build_context_sources in Hsrc.
  exists v, ms. repeat (split; [assumption |]).
  rewrite Hsrc. split; [| split].
  - intros s Hs. apply in_map_iff in Hs as (m & <- & Hm).
    apply filter_In in Hm as [Hm Hkeep]. apply Qle_bool_iff in Hkeep.
    exists m. auto.
  - intros m Hm Hkeep. apply in_map. apply filter_In.
    split; [exact Hm |]. apply Qle_bool_iff, Hkeep.
  - apply sources_of_sorted_matches.
Qed.



Lemma sources_are_the_matches_above_threshold_witness :
  StronglySorted by_src_score_desc
    (sources
       (returned (cached_answer, mkQueryMetrics 0 0 0 0 0 0 false)
          (process_query default_config texts services_up refund_query
             None [] cold_world)).1).
Proof.
  destruct (sources_are_the_matches_above_threshold
              default_config texts services_up refund_query None []
              cold_world
              (process_query default_config texts services_up refund_query
                 None [] cold_world).2
              (returned (cached_answer, mkQueryMetrics 0 0 0 0 0 0 false)
                 (process_query default_config texts services_up
                    refund_query None [] cold_world)).1
              (returned (cached_answer, mkQueryMetrics 0 0 0 0 0 0 false)
                 (process_query default_config texts services_up
                    refund_query None [] cold_world)).2)
    as (v & ms & Hv & Hms & _ & _ & _ & Hsorted).
  - vm_compute. reflexivity.
  - vm_compute. reflexivity.
  - apply Hsorted. simpl in Hms. injection Hms as <-.
    apply index_query_sorted.
Defined.

(** C1, as the code has it.  When the query is valid, the cache misses,
    the embedding call answers and the search call raises [e], the
    pipeline raises [e] itself: it makes no generation call and writes
    nothing to the cache, and the entry point reports status 500 with
    the message of [e]. *)
Theorem search_failure_is_an_internal_error (cfg : Config) (txt : Texts)
    (svc : Services) (request : Body) (w w1 : World)
    (v : list Q) (e : exn) :
  let query := strip (default "" (b_query request)) in
  truthy query = true ->
  len query <= 1000 ->
  get_cached_response cfg (get_cache_key query) (tick w) = (inr None, w1) ->
  embeddings_create svc query = inr v ->
  pinecone_query svc v (TOP_K cfg) (VectorDb.filter_given (b_filter request))
    = inl e ->
  exists wq wh,
    process_query cfg txt svc query (b_filter request) (b_history request) w
      = (inl e, wq)
    /\ handler cfg txt svc request w
       = (inr {| statusCode := 500;
                 headers := [("Content-Type", "application/json")];
                 body := ErrorPayload (exn_msg e) |}, wh)
    /\ cache_table wh = cache_table w
    /\ Forall (fun ev => is_after_search ev = false)
              (drop (length (trace w)) (trace wh)).
Proof.
  intros query Hquery Hlen Hmiss Hembed Hsearch.
  destruct (get_cached_response_effect cfg (get_cache_key query) (tick w))
    as (r & w1' & added & Hget & Htable & _ & _ & Htrace & Hadded).
  rewrite Hmiss in Hget. injection Hget as <- <-.
  assert (Hpq : process_query cfg txt svc query (b_filter request)
                  (b_history request) w
                = (inl e,
                   {| clock := clock w1; ticks := S (S (S (ticks w1)));
                      cache_table := cache_table w1;
                      cache_fault := cache_fault w1;
                      trace := (trace w1 ++ [EvEmbed query])
                               ++ [EvSearch v (TOP_K cfg)
                                     (VectorDb.filter_given (b_filter request))] |})).
  { unfold process_query.
    unfold mbind at 1, M_bind at 1, bind at 1, time_time at 1.
    unfold mbind at 1, M_bind at 1, bind at 1. rewrite Hmiss.
    unfold create_query_embedding, search_pinecone. run.
    rewrite Hembed. simpl. rewrite Hsearch. reflexivity. }
  eexists _, _. split; [exact Hpq |].
  unfold handler. fold query. rewrite Hquery. simpl.
  destruct (Z.gtb_spec (len query) 1000) as [Hgt |]; [lia |].
  unfold try_except.
  unfold mbind at 1, M_bind at 1, bind at 1. rewrite Hpq.
  run. split; [reflexivity |]. simpl. split; [exact Htable |].
  rewrite Htrace. simpl. rewrite <- !app_assoc.
  rewrite drop_app_length. apply Forall_app. split.
  - eapply Forall_impl; [exact Hadded |]. intros ev [_ Hev]. exact Hev.
  - repeat constructor.
Qed.

Lemma search_failure_is_an_internal_error_witness :
  exists wh,
    handler default_config texts services_search_down refund_request cold_world
    = (inr {| statusCode := 500;
              headers := [("Content-Type", "application/json")];
              body := ErrorPayload "vector store unreachable" |}, wh).
Proof.
  destruct (search_failure_is_an_internal_error
              default_config texts services_search_down refund_request
              cold_world
              (get_cached_response default_config
                 (get_cache_key refund_query) (tick cold_world)).2
              [1%Q] (mkExn "ConnectionError" "vector store unreachable"))
    as (wq & wh & _ & Hh & _).
  - reflexivity.
  - vm_compute. discriminate.
  - vm_compute. reflexivity.
  - reflexivity.
  - reflexivity.
  - exists wh. exact Hh.
Defined.

(** C1, as stated, fails: with the vector store unreachable the caller
    gets status 500 and an error, not an answer without sources, and
    the exception that ends the pipeline is the one the search call
    raised. *)
Lemma search_failure_gives_no_degraded_answer :
  exists r wh wq,
    handler default_config texts services_search_down refund_request cold_world
      = (inr r, wh)
    /\ statusCode r = 500
    /\ ~ degraded_answer r
    /\ process_query default_config texts services_search_down refund_query
         None [] cold_world
       = (inl (mkExn "ConnectionError" "vector store unreachable"), wq)
    /\ "ConnectionError" <> "VectorStoreUnavailable".
Proof.
  eexists _, _, _. split; [vm_compute; reflexivity |].
  split; [reflexivity |]. split.
  - intros [H _]. simpl in H. discriminate.
  - split; [vm_compute; reflexivity | discriminate].
Qed.

End PipelineProps.

(** ** More on the chunker *)

Section ChunkerMore.
Import PyStr Ingestion IngestionFacts.

(** *** Stripping *)

Lemma len_lstrip (s : string) : len (lstrip s) <= len s.
Proof.
  unfold len. induction s as [| c s IH]; simpl; [lia |].
  destruct (is_space c); simpl; lia.
Qed.

Lemma len_rstrip (s : string) : len (rstrip s) <= len s.
Proof.
  unfold len. induction s as [| c s IH]; simpl; [lia |].
  destruct (rstrip s) as [| d r]; simpl in *.
  - destruct (is_space c); simpl; lia.
  - lia.
Qed.

Lemma len_strip (s : string) : len (strip s) <= len s.
Proof.
  unfold strip. pose proof (len_rstrip (lstrip s)). pose proof (len_lstrip s). lia.
Qed.

Lemma rstrip_idem (s : string) : rstrip (rstrip s) = rstrip s.
Proof.
  induction s as [| c s IH]; simpl; [reflexivity |].
  destruct (rstrip s) as [| d r] eqn:E.
  - destruct (is_space c) eqn:Hc; simpl; [reflexivity |]. rewrite Hc. reflexivity.
  - simpl. simpl in IH. rewrite IH. destruct (rstrip r); reflexivity.
Qed.

Lemma lstrip_head_solid (s : string) : head_solid (lstrip s) = true.
Proof.
  induction s as [| c s IH]; simpl; [reflexivity |].
  destruct (is_space c) eqn:Hc; [exact IH |]. simpl. rewrite Hc. reflexivity.
Qed.

Lemma rstrip_head_solid (s : string) :
  head_solid s = true -> head_solid (rstrip s) = true.
Proof.
  destruct s as [| c s]; simpl; [reflexivity |].
  intros Hc. destruct (rstrip s); simpl; [| exact Hc].
  destruct (is_space c) eqn:E; [reflexivity |]. simpl. rewrite E. reflexivity.
Qed.

Lemma head_solid_lstrip (s : string) : head_solid s = true -> lstrip s = s.
Proof.
  destruct s as [| c s]; simpl; [reflexivity |].
  intros Hc. destruct (is_space c); [discriminate | reflexivity].
Qed.

Lemma strip_idem (s : string) : strip (strip s) = strip s.
Proof.
  unfold strip.
  rewrite (head_solid_lstrip (rstrip (lstrip s))).
  - apply rstrip_idem.
  - apply rstrip_head_solid, lstrip_head_solid.
Qed.

Lemma all_space_append (a b : string) :
  all_space (a +:+ b) = all_space a && all_space b.
Proof.
  induction a as [| c a IH]; [reflexivity |].
  rewrite append_cons. simpl. rewrite IH, andb_assoc. reflexivity.
Qed.

Lemma solid_append_r (a b : string) : solid b = true -> solid (a +:+ b) = true.
Proof.
  unfold solid. rewrite all_space_append.
  intros H. apply negb_true_iff in H. rewrite H, andb_false_r. reflexivity.
Qed.

Lemma solid_append_l (a b : string) : solid a = true -> solid (a +:+ b) = true.
Proof.
  unfold solid. rewrite all_space_append.
  intros H. apply negb_true_iff in H. rewrite H. reflexivity.
Qed.

Lemma solid_truthy (s : string) : solid s = true -> truthy s = true.
Proof. destruct s; [discriminate | reflexivity]. Qed.

Lemma solid_rstrip (c : ascii) (s : string) :
  is_space c = false -> truthy (rstrip (String c s)) = true.
Proof.
  intros Hc. simpl. destruct (rstrip s); [rewrite Hc |]; reflexivity.
Qed.

Lemma solid_strip (s : string) : solid s = true -> truthy (strip s) = true.
Proof.
  unfold solid, strip. induction s as [| c s IH]; [discriminate |].
  simpl. destruct (is_space c) eqn:Hc; simpl.
  - exact IH.
  - intros _. destruct (rstrip s); [rewrite Hc |]; reflexivity.
Qed.

(** *** The sentence splitter *)

Lemma split_scan_not_nil mode piece s : split_scan mode piece s <> [].
Proof.
  revert mode piece. induction s as [| c s IH]; intros mode piece; simpl.
  - discriminate.
  - destruct mode as [after |].
    + destruct (after && is_space c); [discriminate | apply IH].
    + destruct (is_space c); apply IH.
Qed.

Lemma total_len_split_scan mode piece s :
  total_len (split_scan mode piece s) <= len piece + len s + 1.
Proof.
  revert mode piece. induction s as [| c s IH]; intros mode piece.
  - simpl. unfold len. simpl. lia.
  - assert (Hs : len (String c s) = len s + 1) by (unfold len; simpl; lia).
    assert (Hp : len (piece +:+ String c "") = len piece + 1)
      by (rewrite len_append; unfold len; simpl; lia).
    simpl. destruct mode as [after |].
    + destruct (after && is_space c).
      * simpl. specialize (IH InSeparator ""). unfold len in *. simpl in *. lia.
      * specialize (IH (InPiece (is_boundary_char c)) (piece +:+ String c "")). lia.
    + destruct (is_space c).
      * specialize (IH InSeparator piece). lia.
      * specialize (IH (InPiece (is_boundary_char c)) (piece +:+ String c "")). lia.
Qed.

Lemma init_solid_cons p rest :
  rest <> [] -> init_solid (p :: rest) = solid p && init_solid rest.
Proof. destruct rest; [congruence | reflexivity]. Qed.

Lemma solid_snoc piece c : is_space c = false -> solid (piece +:+ String c "") = true.
Proof.
  intros Hc. apply solid_append_r. unfold solid. simpl. rewrite Hc. reflexivity.
Qed.

Lemma split_scan_init_solid mode piece s :
  (mode = InPiece true -> solid piece = true) ->
  init_solid (split_scan mode piece s) = true.
Proof.
  revert mode piece. induction s as [| c s IH]; intros mode piece Hm; [reflexivity |].
  simpl. destruct mode as [after |].
  - destruct (after && is_space c) eqn:E.
    + apply andb_prop in E as [-> Hc].
      rewrite init_solid_cons by apply split_scan_not_nil.
      rewrite Hm by reflexivity. simpl. apply IH. discriminate.
    + apply IH. intros [= Hb].
      apply solid_snoc. destruct (is_space c) eqn:Hc; [| reflexivity].
      rewrite (space_not_boundary c Hc) in Hb. discriminate.
  - destruct (is_space c) eqn:Hc.
    + apply IH. discriminate.
    + apply IH. intros _. apply solid_snoc, Hc.
Qed.

Lemma split_sentences_init_solid t : init_solid (split_sentences t) = true.
Proof. apply split_scan_init_solid. discriminate. Qed.

(** *** Offsets *)

Lemma StronglySorted_snoc {A} (R : A -> A -> Prop) (l : list A) (x : A) :
  StronglySorted R l -> Forall (fun y => R y x) l -> StronglySorted R (l ++ [x]).
Proof.
  induction 1 as [| y l Hl IH Hy]; intros Hx; simpl.
  - constructor; constructor.
  - inversion Hx; subst. constructor; [apply IH; assumption |].
    apply Forall_app. split; [assumption | constructor; [assumption | constructor]].
Qed.

Lemma len_carry (k : Z) (s : string) :
  0 <= len (slice_from (Z.max 0 k) s) <= len s.
Proof.
  split; [apply len_nonneg |].
  rewrite len_slice_from by lia. pose proof (len_nonneg s). lia.
Qed.

Lemma loop_body_char_pos cs ov st s :
  char_pos (loop_body cs ov st s) = char_pos st + (len s + 1).
Proof. unfold loop_body. destruct (closes cs st s); reflexivity. Qed.

Lemma run_loop_char_pos cs ov l st :
  char_pos (run_loop cs ov l st) = char_pos st + total_len l.
Proof.
  unfold run_loop. revert st. induction l as [| s l IH]; intros st; simpl; [lia |].
  rewrite IH, loop_body_char_pos. lia.
Qed.

Lemma loop_body_inv cs ov st s : loop_inv st -> loop_inv (loop_body cs ov st s).
Proof.
  intros (Hstart & Hbuf & Hspan & Hbefore & Hsorted).
  pose proof (len_nonneg s) as Hs.
  pose proof (len_nonneg (current_text st)) as Hcur.
  unfold loop_inv, loop_body. destruct (closes cs st s) eqn:Hclose; simpl.
  - pose proof (len_carry (len (current_text st) - ov) (current_text st)) as Hcarry.
    rewrite !len_append.
    change (len " ") with 1.
    repeat split.
    + lia.
    + lia.
    + apply Forall_app. split; [exact Hspan |].
      constructor; [| constructor]. split; simpl; [exact Hstart |].
      pose proof (len_strip (current_text st)). lia.
    + apply Forall_app. split.
      * eapply Forall_impl; [exact Hbefore |]. simpl. intros c [? ?]. lia.
      * constructor; [| constructor]. simpl. lia.
    + apply StronglySorted_snoc; [exact Hsorted |].
      eapply Forall_impl; [exact Hbefore |]. intros c [? ?].
      split; simpl; lia.
  - repeat split.
    + exact Hstart.
    + destruct (truthy (current_text st)) eqn:Ht.
      * rewrite !len_append. change (len " ") with 1. lia.
      * lia.
    + exact Hspan.
    + eapply Forall_impl; [exact Hbefore |]. simpl. intros c [? ?]. lia.
    + exact Hsorted.
Qed.

Lemma run_loop_inv cs ov l st : loop_inv st -> loop_inv (run_loop cs ov l st).
Proof.
  unfold run_loop. revert st. induction l as [| s l IH]; intros st H; simpl; [exact H |].
  apply IH, loop_body_inv, H.
Qed.

Lemma loop_init_inv : loop_inv loop_init.
Proof.
  unfold loop_inv, loop_init; simpl. unfold len; simpl.
  repeat split; try lia; constructor.
Qed.

(** X1.  The offsets of the chunks: every chunk starts at 0 or later and
    spans at least its text, no chunk ends after [len(text) + 1], and
    along the result [start_char] never decreases while [end_char]
    strictly increases. *)
Theorem chunk_text_spans_in_order (t : string) (chunk_size overlap : Z) :
  let result := chunk_text t chunk_size overlap in
  Forall span_ok result
  /\ Forall (fun c => end_char c <= len t + 1) result
  /\ StronglySorted chunk_before result.
Proof.
  simpl. unfold chunk_text.
  pose proof (run_loop_inv chunk_size overlap (split_sentences t) loop_init loop_init_inv)
    as (Hstart & Hbuf & Hspan & Hbefore & Hsorted).
  pose proof (run_loop_char_pos chunk_size overlap (split_sentences t) loop_init) as Hpos.
  pose proof (total_len_split_scan (InPiece false) "" t) as Htot.
  fold (split_sentences t) in Htot. change (len "") with 0 in Htot.
  change (char_pos loop_init) with 0 in Hpos.
  set (st := run_loop chunk_size overlap (split_sentences t) loop_init) in *.
  assert (Hend : Forall (fun c => end_char c <= len t + 1) (chunks st)).
  { eapply Forall_impl; [exact Hbefore |]. simpl. intros c [? ?]. lia. }
  unfold flush. destruct (truthy (strip (current_text st))); [| auto].
  split; [| split].
  - apply Forall_app. split; [exact Hspan |]. constructor; [| constructor].
    split; simpl; [exact Hstart |]. pose proof (len_strip (current_text st)). lia.
  - apply Forall_app. split; [exact Hend |]. constructor; [| constructor]. simpl. lia.
  - apply StronglySorted_snoc; [exact Hsorted |].
    eapply Forall_impl; [exact Hbefore |]. intros c [? ?]. split; simpl; lia.
Qed.

(** *** Texts of the chunks *)

Lemma closes_truthy cs st s : closes cs st s = true -> truthy (current_text st) = true.
Proof. unfold closes. intros [_ H]%andb_prop. exact H. Qed.

Lemma text_ok_strip (cur : string) (i a b : Z) :
  truthy (strip cur) = true -> text_ok (mkTextChunk (strip cur) i a b).
Proof. intros H. split; simpl; [exact H | apply strip_idem]. Qed.

Lemma loop_body_text_ok cs ov st s :
  Forall text_ok (chunks st) -> buffer_ok st ->
  Forall text_ok (chunks (loop_body cs ov st s))
  /\ (solid s = true -> buffer_ok (loop_body cs ov st s)).
Proof.
  intros Hchunks Hbuf. unfold loop_body, buffer_ok.
  destruct (closes cs st s) eqn:Hclose; simpl.
  - split.
    + apply Forall_app. split; [exact Hchunks |]. constructor; [| constructor].
      apply text_ok_strip, solid_strip, Hbuf, (closes_truthy _ _ _ Hclose).
    + intros Hs _. apply solid_append_r, solid_append_r, Hs.
  - split; [exact Hchunks |]. intros Hs _.
    destruct (truthy (current_text st)); [| exact Hs].
    apply solid_append_r, solid_append_r, Hs.
Qed.

Lemma run_loop_text_ok cs ov l st :
  init_solid l = true -> Forall text_ok (chunks st) -> buffer_ok st ->
  Forall text_ok (chunks (run_loop cs ov l st)).
Proof.
  unfold run_loop. revert st. induction l as [| s l IH]; intros st Hl Hchunks Hbuf.
  - exact Hchunks.
  - destruct (loop_body_text_ok cs ov st s Hchunks Hbuf) as [H1 H2].
    destruct l as [| s2 l]; [exact H1 |].
    rewrite init_solid_cons in Hl by discriminate.
    apply andb_prop in Hl as [Hs Hl].
    change (fold_left (loop_body cs ov) (s :: s2 :: l) st)
      with (fold_left (loop_body cs ov) (s2 :: l) (loop_body cs ov st s)).
    apply IH; auto.
Qed.

(** X2.  The text of every chunk is not empty and has no white space at
    either end. *)
Theorem chunk_text_texts_stripped (t : string) (chunk_size overlap : Z) :
  Forall text_ok (chunk_text t chunk_size overlap).
Proof.
  unfold chunk_text.
  assert (H : Forall text_ok
                (chunks (run_loop chunk_size overlap (split_sentences t) loop_init))).
  { apply run_loop_text_ok.
    - apply split_sentences_init_solid.
    - constructor.
    - intros H. discriminate. }
  unfold flush.
  destruct (truthy (strip (current_text
              (run_loop chunk_size overlap (split_sentences t) loop_init)))) eqn:E;
    [| exact H].
  apply Forall_app. split; [exact H |]. constructor; [| constructor].
  apply text_ok_strip, E.
Qed.

(** *** A text that fits in one chunk *)

Lemma total_len_nonneg l : 0 <= total_len l.
Proof.
  induction l as [| p l IH]; simpl; [lia |]. pose proof (len_nonneg p). lia.
Qed.

Lemma run_loop_no_close cs ov l st :
  buffer_len (current_text st) + total_len l <= cs + 2 ->
  run_loop cs ov l st =
    {| chunks := chunks st;
       current_text := extend (current_text st) l;
       current_start := current_start st;
       char_pos := char_pos st + total_len l |}.
Proof.
  unfold run_loop, extend. revert st.
  induction l as [| s l IH]; intros st Hfit.
  - simpl. destruct st; simpl. f_equal. lia.
  - simpl in Hfit. pose proof (total_len_nonneg l) as Hl.
    pose proof (len_nonneg s) as Hs.
    assert (Hno : closes cs st s = false).
    { unfold closes. unfold buffer_len in Hfit.
      destruct (truthy (current_text st)); [| apply andb_false_r].
      rewrite andb_true_r. rewrite Z.gtb_ltb. apply Z.ltb_ge. lia. }
    simpl. rewrite IH.
    + unfold loop_body. rewrite Hno. simpl. f_equal. lia.
    + unfold loop_body. rewrite Hno. simpl.
      unfold buffer_len in *. destruct (truthy (current_text st)) eqn:Ht.
      * rewrite truthy_append_r by reflexivity.
        rewrite !len_append. change (len " ") with 1. lia.
      * destruct (truthy s); lia.
Qed.

Lemma split_scan_solid mode piece s :
  solid piece = true \/ solid s = true ->
  Exists (fun p => solid p = true) (split_scan mode piece s).
Proof.
  revert mode piece. induction s as [| c s IH]; intros mode piece H.
  - simpl. constructor. destruct H as [H | H]; [exact H | discriminate].
  - assert (Hnext : solid (piece +:+ String c "") = true \/ Is_true (is_space c) /\ solid s = true).
    { destruct H as [H | H].
      - left. apply solid_append_l, H.
      - destruct (is_space c) eqn:Hc.
        + right. split; [exact I |]. unfold solid in *. simpl in H. rewrite Hc in H. exact H.
        + left. apply solid_snoc, Hc. }
    simpl. destruct mode as [after |].
    + destruct (after && is_space c) eqn:E.
      * apply andb_prop in E as [_ Hc].
        destruct H as [H | H]; [constructor 1; exact H |].
        constructor 2. apply IH. right.
        unfold solid in *. simpl in H. rewrite Hc in H. exact H.
      * apply IH. destruct Hnext as [Hn | [_ Hn]]; auto.
    + destruct (is_space c) eqn:Hc.
      * apply IH. destruct H as [H | H]; [left; exact H |].
        right. unfold solid in *. simpl in H. rewrite Hc in H. exact H.
      * apply IH. left. apply solid_snoc, Hc.
Qed.

Lemma extend_solid l cur :
  solid cur = true \/ Exists (fun p => solid p = true) l ->
  solid (extend cur l) = true.
Proof.
  unfold extend. revert cur. induction l as [| s l IH]; intros cur H; simpl.
  - destruct H as [H | H]; [exact H | inversion H].
  - apply IH. destruct H as [H | H].
    + left. rewrite (solid_truthy _ H). apply solid_append_l, H.
    + inversion H as [? ? Hs | ? ? Hl]; subst.
      * left. destruct (truthy cur); [apply solid_append_r, solid_append_r |]; exact Hs.
      * right. exact Hl.
Qed.

Lemma extend_truthy cur l :
  truthy cur = true -> l <> [] ->
  extend cur l = cur +:+ (" " +:+ Query.join " " l).
Proof.
  unfold extend. revert cur. induction l as [| s l IH]; intros cur Hcur Hl; [congruence |].
  simpl fold_left. rewrite Hcur. destruct l as [| s2 l]; [reflexivity |].
  rewrite IH; [| apply truthy_append_r; reflexivity | discriminate].
  change (Query.join " " (s :: s2 :: l)) with (s +:+ " " +:+ Query.join " " (s2 :: l)).
  rewrite !append_assoc. reflexivity.
Qed.

Lemma extend_join l : init_solid l = true -> extend "" l = Query.join " " l.
Proof.
  destruct l as [| s l]; [reflexivity |]. intros H.
  destruct l as [| s2 l]; [reflexivity |].
  rewrite init_solid_cons in H by discriminate. apply andb_prop in H as [Hs _].
  change (extend "" (s :: s2 :: l)) with (extend s (s2 :: l)).
  rewrite extend_truthy; [reflexivity | apply solid_truthy, Hs | discriminate].
Qed.

(** X3.  A text that is not blank and not longer than [chunk_size] is
    one chunk, whatever the overlap: index 0, from offset 0, its text
    the sentences joined by single spaces, stripped; its end offset is
    at most [len(text) + 1]. *)
Theorem short_text_is_one_chunk (t : string) (chunk_size overlap : Z) :
  all_space t = false ->
  len t <= chunk_size ->
  chunk_text t chunk_size overlap =
    [ {| text := strip (Query.join " " (split_sentences t));
         chunk_index := 0;
         start_char := 0;
         end_char := total_len (split_sentences t) |} ]
  /\ total_len (split_sentences t) <= len t + 1.
Proof.
  intros Hsolid Hfit.
  pose proof (total_len_split_scan (InPiece false) "" t) as Htot.
  fold (split_sentences t) in Htot. change (len "") with 0 in Htot.
  split; [| lia].
  unfold chunk_text. rewrite run_loop_no_close.
  2:{ simpl. unfold buffer_len. simpl. lia. }
  simpl. rewrite extend_join by apply split_sentences_init_solid.
  unfold flush. simpl.
  rewrite solid_strip; [reflexivity |].
  rewrite <- extend_join by apply split_sentences_init_solid.
  apply extend_solid. right. apply split_scan_solid. right.
  unfold solid. rewrite Hsolid. reflexivity.
Qed.

Lemma short_text_is_one_chunk_witness :
  chunk_text "Returns are free. Refunds take five days." 50 10 =
    [ {| text := "Returns are free. Refunds take five days.";
         chunk_index := 0; start_char := 0; end_char := 42 |} ].
Proof.
  pose proof (short_text_is_one_chunk "Returns are free. Refunds take five days." 50 10
                eq_refl ltac:(vm_compute; discriminate)) as [H _].
  exact H.
Defined.

(** *** Length of the chunks *)

Lemma loop_body_bound cs ov m st s :
  0 <= ov -> len s <= m ->
  let bound := Z.max (cs + 1) (ov + 1 + m) in
  len (current_text st) <= bound ->
  Forall (fun c => len (text c) <= bound) (chunks st) ->
  len (current_text (loop_body cs ov st s)) <= bound
  /\ Forall (fun c => len (text c) <= bound) (chunks (loop_body cs ov st s)).
Proof.
  intros Hov Hs bound Hcur Hchunks.
  pose proof (len_nonneg s). pose proof (len_nonneg (current_text st)).
  unfold loop_body. destruct (closes cs st s) eqn:Hclose; simpl.
  - split.
    + rewrite !len_append, len_slice_from by lia. change (len " ") with 1.
      unfold bound. lia.
    + apply Forall_app. split; [exact Hchunks |]. constructor; [| constructor].
      simpl. pose proof (len_strip (current_text st)). lia.
  - split; [| exact Hchunks].
    unfold closes in Hclose.
    destruct (truthy (current_text st)).
    + rewrite andb_true_r, Z.gtb_ltb in Hclose. apply Z.ltb_ge in Hclose.
      rewrite !len_append. change (len " ") with 1. unfold bound. lia.
    + unfold bound. lia.
Qed.

(** X4.  With an overlap that is not negative and sentences of at most
    [m] characters, no chunk text is longer than
    [max(chunk_size + 1, overlap + 1 + m)]. *)
Theorem chunk_text_length_bound (t : string) (chunk_size overlap m : Z) :
  0 <= overlap ->
  Forall (fun s => len s <= m) (split_sentences t) ->
  Forall (fun c => len (text c) <= Z.max (chunk_size + 1) (overlap + 1 + m))
         (chunk_text t chunk_size overlap).
Proof.
  intros Hov Hm. unfold chunk_text.
  set (bound := Z.max (chunk_size + 1) (overlap + 1 + m)).
  assert (Hm0 : 0 <= m).
  { pose proof (split_scan_not_nil (InPiece false) "" t) as Hne.
    fold (split_sentences t) in Hne.
    destruct Hm as [| s l Hs _]; [congruence |]. pose proof (len_nonneg s). lia. }
  assert (H : forall l st,
             Forall (fun s => len s <= m) l ->
             len (current_text st) <= bound ->
             Forall (fun c => len (text c) <= bound) (chunks st) ->
             len (current_text (run_loop chunk_size overlap l st)) <= bound
             /\ Forall (fun c => len (text c) <= bound)
                       (chunks (run_loop chunk_size overlap l st))).
  { unfold run_loop. induction l as [| s l IH]; intros st Hl Hcur Hchunks; simpl; [auto |].
    inversion Hl as [| ? ? Hs Hl']; subst.
    destruct (loop_body_bound chunk_size overlap m st s) as [Hb1 Hb2]; auto. }
  destruct (H (split_sentences t) loop_init Hm) as [Hcur Hchunks].
  { change (len (current_text loop_init)) with 0. unfold bound. lia. }
  { constructor. }
  unfold flush.
  destruct (truthy (strip (current_text
              (run_loop chunk_size overlap (split_sentences t) loop_init))));
    [| exact Hchunks].
  apply Forall_app. split; [exact Hchunks |]. constructor; [| constructor].
  simpl.
  pose proof (len_strip (current_text
                (run_loop chunk_size overlap (split_sentences t) loop_init))).
  lia.
Qed.

Lemma chunk_text_length_bound_witness :
  Forall (fun c => len (text c) <= 51)
    (chunk_text "Sentence one. Sentence two. Sentence three. Sentence four." 50 10).
Proof.
  apply (chunk_text_length_bound
           "Sentence one. Sentence two. Sentence three. Sentence four." 50 10 15).
  - lia.
  - vm_compute. repeat constructor; discriminate.
Defined.

End ChunkerMore.

(** ** Identifiers, cache keys and file types *)

Section IdProps.
Import PyStr Py Ids.

(** *** The digest is 64 hexadecimal digits *)

Lemma round_length st kw : length st = 8%nat -> length (Hashlib.round st kw) = 8%nat.
Proof.
  intros H. do 9 (destruct st as [| ? st]; try discriminate). reflexivity.
Qed.

Lemma fold_round_length kws st :
  length st = 8%nat -> length (fold_left Hashlib.round kws st) = 8%nat.
Proof.
  revert st. induction kws as [| kw kws IH]; intros st H; simpl; [exact H |].
  apply IH, round_length, H.
Qed.

Lemma compress_length h block :
  length h = 8%nat -> length (Hashlib.compress h block) = 8%nat.
Proof.
  intros H. unfold Hashlib.compress. rewrite length_zip_with.
  rewrite fold_round_length by exact H. rewrite H. reflexivity.
Qed.

Lemma sha256_length msg : length (Hashlib.sha256 msg) = 8%nat.
Proof.
  unfold Hashlib.sha256.
  assert (H : forall bs h, length h = 8%nat ->
                length (fold_left Hashlib.compress bs h) = 8%nat).
  { induction bs as [| b bs IH]; intros h Hh; simpl; [exact Hh |].
    apply IH, compress_length, Hh. }
  apply H. vm_compute. reflexivity.
Qed.

Lemma all_chars_append p a b :
  all_chars p (a +:+ b) = all_chars p a && all_chars p b.
Proof.
  induction a as [| c a IH]; [reflexivity |].
  rewrite append_cons. simpl. rewrite IH, andb_assoc. reflexivity.
Qed.

Lemma length_append (a b : string) :
  String.length (a +:+ b) = (String.length a + String.length b)%nat.
Proof.
  induction a as [| c a IH]; [reflexivity |].
  rewrite append_cons. simpl. rewrite IH. reflexivity.
Qed.

Lemma hex_digit_ok (x : Z) : is_hex_digit (Hashlib.hex_digit (Z.land x 15)) = true.
Proof.
  assert (Hr : 0 <= Z.land x 15 < 16).
  { change 15 with (Z.ones 4). rewrite Z.land_ones by lia.
    apply Z.mod_pos_bound. reflexivity. }
  set (n := Z.land x 15) in *. clearbody n.
  assert (Hn : n = Z.of_nat (Z.to_nat n)) by lia.
  rewrite Hn. assert (Hk : (Z.to_nat n < 16)%nat) by lia.
  generalize dependent (Z.to_nat n). intros k _ Hk.
  do 16 (destruct k as [| k]; [reflexivity |]). lia.
Qed.

Lemma hex_word_ok (w : Z) : hex_string 8 (Hashlib.hex_word w).
Proof.
  unfold Hashlib.hex_word.
  change 8%nat with (length (rev (seq 0 8))) at 1.
  generalize (rev (seq 0 8)). intros l.
  induction l as [| i l [IH1 IH2]]; [split; reflexivity |].
  split.
  - cbn [fold_right length String.length]. rewrite IH1. reflexivity.
  - cbn [fold_right all_chars]. rewrite hex_digit_ok, IH2. reflexivity.
Qed.

Lemma hexdigest_ok (msg : list Z) : hex_string 64 (Hashlib.hexdigest msg).
Proof.
  unfold Hashlib.hexdigest.
  assert (H : forall l, hex_string (8 * length l)
                (fold_right (fun w acc => Hashlib.hex_word w +:+ acc) "" l)).
  { induction l as [| w l [IH1 IH2]]; [split; reflexivity |].
    destruct (hex_word_ok w) as [H1 H2].
    split; simpl fold_right.
    - rewrite length_append, H1, IH1. simpl. lia.
    - rewrite all_chars_append, H2, IH2. reflexivity. }
  specialize (H (Hashlib.sha256 msg)). rewrite sha256_length in H. exact H.
Qed.

Lemma str_take_length n s :
  String.length (str_take n s) = Nat.min n (String.length s).
Proof.
  revert s. induction n as [| n IH]; intros [| c s]; simpl; auto.
Qed.

Lemma str_take_all_chars p n s :
  all_chars p s = true -> all_chars p (str_take n s) = true.
Proof.
  revert s. induction n as [| n IH]; intros [| c s]; simpl; auto.
  intros [Hc Hs]%andb_prop. rewrite Hc. simpl. auto.
Qed.

Lemma slice_to_hex (k n : nat) (s : string) :
  (k <= n)%nat -> hex_string n s -> hex_string k (slice_to (Z.of_nat k) s).
Proof.
  intros Hk [Hlen Hall]. unfold slice_to, clamp, len. split.
  - rewrite str_take_length.
    destruct (Z.of_nat k <? 0) eqn:E; [apply Z.ltb_lt in E; lia |]. lia.
  - apply str_take_all_chars, Hall.
Qed.


Lemma get_cache_key_hex (query : string) :
  hex_string 32 (Query.get_cache_key query).
Proof.
  unfold Query.get_cache_key.
  apply (slice_to_hex 32 64); [lia | apply hexdigest_ok].
Qed.


(** *** The cache key ignores case and surrounding white space *)

Lemma is_space_lower_char (c : ascii) : is_space (lower_char c) = is_space c.
Proof. destruct c as [[] [] [] [] [] [] [] []]; reflexivity. Qed.

Lemma lower_char_idem (c : ascii) : lower_char (lower_char c) = lower_char c.
Proof. destruct c as [[] [] [] [] [] [] [] []]; reflexivity. Qed.

Lemma lower_idem (s : string) : lower (lower s) = lower s.
Proof.
  induction s as [| c s IH]; simpl; [reflexivity |].
  rewrite lower_char_idem, IH. reflexivity.
Qed.

Lemma lower_append (a b : string) : lower (a +:+ b) = lower a +:+ lower b.
Proof.
  induction a as [| c a IH]; [reflexivity |].
  rewrite append_cons. simpl. rewrite IH. reflexivity.
Qed.

Lemma all_space_lower (s : string) : all_space (lower s) = all_space s.
Proof.
  induction s as [| c s IH]; simpl; [reflexivity |].
  rewrite is_space_lower_char, IH. reflexivity.
Qed.

Lemma all_space_rstrip (s : string) : all_space s = true -> rstrip s = "".
Proof.
  induction s as [| c s IH]; simpl; [reflexivity |].
  intros [Hc Hs]%andb_prop. rewrite IH, Hc by exact Hs. reflexivity.
Qed.

Lemma lstrip_space_append (a s : string) :
  all_space a = true -> lstrip (a +:+ s) = lstrip s.
Proof.
  induction a as [| c a IH]; [reflexivity |].
  rewrite append_cons. simpl. intros [Hc Ha]%andb_prop. rewrite Hc. auto.
Qed.

Lemma rstrip_append_space (s b : string) :
  all_space b = true -> rstrip (s +:+ b) = rstrip s.
Proof.
  intros Hb. induction s as [| c s IH].
  - rewrite append_nil_l. apply all_space_rstrip, Hb.
  - rewrite append_cons. simpl. rewrite IH. reflexivity.
Qed.

Lemma strip_append_space (s b : string) :
  all_space b = true -> strip (s +:+ b) = strip s.
Proof.
  intros Hb. unfold strip. induction s as [| c s IH].
  - rewrite append_nil_l, (all_space_lstrip b Hb). reflexivity.
  - rewrite append_cons. simpl. destruct (is_space c); [exact IH |].
    rewrite <- append_cons. apply rstrip_append_space, Hb.
Qed.

Lemma strip_padding (a s b : string) :
  all_space a = true -> all_space b = true -> strip (a +:+ s +:+ b) = strip s.
Proof.
  intros Ha Hb. unfold strip at 1. rewrite lstrip_space_append by exact Ha.
  apply (strip_append_space s b Hb).
Qed.

Lemma lower_lstrip (s : string) : lower (lstrip s) = lstrip (lower s).
Proof.
  induction s as [| c s IH]; [reflexivity |].
  simpl. rewrite is_space_lower_char.
  destruct (is_space c); [exact IH | reflexivity].
Qed.

Lemma lower_rstrip (s : string) : lower (rstrip s) = rstrip (lower s).
Proof.
  induction s as [| c s IH]; [reflexivity |].
  simpl. rewrite <- IH, is_space_lower_char.
  destruct (rstrip s); simpl; [destruct (is_space c) |]; reflexivity.
Qed.

Lemma lower_strip (s : string) : lower (strip s) = strip (lower s).
Proof. unfold strip. rewrite lower_rstrip, lower_lstrip. reflexivity. Qed.

(** X6.  White space around a query, the case of its letters and a
    [strip] applied beforehand do not change its cache key. *)
Theorem get_cache_key_ignores_case_and_padding (before query after : string) :
  all_space before = true ->
  all_space after = true ->
  Query.get_cache_key (before +:+ query +:+ after) = Query.get_cache_key query
  /\ Query.get_cache_key (lower query) = Query.get_cache_key query
  /\ Query.get_cache_key (strip query) = Query.get_cache_key query.
Proof.
  intros Ha Hb. unfold Query.get_cache_key. split; [| split].
  - rewrite !lower_append, strip_padding; [reflexivity | |];
      rewrite all_space_lower; assumption.
  - rewrite lower_idem. reflexivity.
  - rewrite lower_strip, strip_idem. reflexivity.
Qed.

Lemma get_cache_key_ignores_case_and_padding_witness :
  Query.get_cache_key ("  " +:+ "What is the Refund Policy?" +:+ " ")
  = Query.get_cache_key "What is the Refund Policy?"
  /\ Query.get_cache_key (lower "What is the Refund Policy?")
     = Query.get_cache_key "What is the Refund Policy?"
  /\ Query.get_cache_key (strip "What is the Refund Policy?")
     = Query.get_cache_key "What is the Refund Policy?".
Proof.
  apply (get_cache_key_ignores_case_and_padding "  " "What is the Refund Policy?" " ");
    reflexivity.
Defined.

(** *** File types *)

Lemma rsplit1_none (sep : ascii) (s : string) :
  has_char sep s = false -> rsplit1 sep s = None.
Proof.
  unfold has_char. rewrite negb_false_iff.
  induction s as [| c s IH]; simpl; [reflexivity |].
  intros [Hc Hs]%andb_prop. rewrite IH by exact Hs.
  apply negb_true_iff in Hc. rewrite Hc. reflexivity.
Qed.

Lemma rsplit1_last (sep : ascii) (stem ext : string) :
  has_char sep ext = false ->
  rsplit1 sep (stem +:+ String sep ext) = Some (stem, ext).
Proof.
  intros Hext. induction stem as [| c stem IH].
  - rewrite append_nil_l. simpl. rewrite (rsplit1_none sep ext Hext).
    rewrite Ascii.eqb_refl. reflexivity.
  - rewrite append_cons. simpl. rewrite IH. reflexivity.
Qed.

Lemma rsplit1_some (sep : ascii) (s before after : string) :
  rsplit1 sep s = Some (before, after) ->
  s = before +:+ String sep after /\ has_char sep after = false.
Proof.
  revert before. induction s as [| c s IH]; intros before; simpl; [discriminate |].
  destruct (rsplit1 sep s) as [[b a] |] eqn:E.
  - intros [= <- <-]. destruct (IH b eq_refl) as [-> Ha].
    split; [reflexivity | exact Ha].
  - destruct (Ascii.eqb c sep) eqn:Hc; [| discriminate].
    intros [= <- <-]. apply Ascii.eqb_eq in Hc. subst c.
    split; [reflexivity |].
    unfold has_char. rewrite negb_false_iff.
    clear IH. induction s as [| d s IH]; simpl in *; [reflexivity |].
    destruct (rsplit1 sep s) as [[b a] |]; [discriminate |].
    destruct (Ascii.eqb d sep); [discriminate |]. simpl. apply IH. reflexivity.
Qed.

Lemma lower_char_not_dot (c : ascii) :
  Ascii.eqb (lower_char c) dot = Ascii.eqb c dot.
Proof. destruct c as [[] [] [] [] [] [] [] []]; reflexivity. Qed.

Lemma has_char_lower (s : string) : has_char dot (lower s) = has_char dot s.
Proof.
  unfold has_char. f_equal.
  induction s as [| c s IH]; simpl; [reflexivity |].
  rewrite lower_char_not_dot, IH. reflexivity.
Qed.

(** X7.  The file type of a key without a dot is ["txt"]; otherwise it
    is the text after the last dot, in lower case.  The result holds no
    dot and no upper-case letter. *)
Theorem get_file_type_is_the_last_extension (key : string) :
  (has_char dot key = false -> get_file_type key = "txt")
  /\ (forall stem extension,
        key = stem +:+ String dot extension ->
        has_char dot extension = false ->
        get_file_type key = lower extension)
  /\ has_char dot (get_file_type key) = false
  /\ lower (get_file_type key) = get_file_type key.
Proof.
  unfold get_file_type. split; [| split; [| split]].
  - intros H. rewrite (rsplit1_none _ _ H). reflexivity.
  - intros stem extension -> H. rewrite (rsplit1_last _ _ _ H). reflexivity.
  - destruct (rsplit1 dot key) as [[b a] |] eqn:E; [| reflexivity].
    apply rsplit1_some in E as [_ Ha]. rewrite has_char_lower. exact Ha.
  - destruct (rsplit1 dot key) as [[b a] |]; [apply lower_idem | reflexivity].
Qed.

Lemma get_file_type_is_the_last_extension_witness :
  get_file_type "path/to/archive.tar.GZ" = "gz"
  /\ get_file_type "filename" = "txt".
Proof.
  split.
  - apply (proj1 (proj2 (get_file_type_is_the_last_extension
                           "path/to/archive.tar.GZ"))
             "path/to/archive.tar" "GZ"); reflexivity.
  - apply (proj1 (get_file_type_is_the_last_extension "filename")). reflexivity.
Defined.

End IdProps.

Section KeyCollisions.
Import PyStr Py Ids.

(** *** More texts than keys *)

(** Among [n + 1] numbers below [n] two are equal. *)
Lemma bounded_search (f : Z -> Z) (v n : Z) :
  0 <= n ->
  (exists i, 0 <= i < n /\ f i = v) \/ (forall i, 0 <= i < n -> f i <> v).
Proof.
  intros Hn. pattern n. apply natlike_ind; [| | exact Hn].
  - right. intros i Hi. lia.
  - clear n Hn. intros n Hn [(i & Hi & Hv) | Hnone].
    + left. exists i. split; [lia | exact Hv].
    + destruct (Z.eq_dec (f n) v) as [Heq | Hne].
      * left. exists n. split; [lia | exact Heq].
      * right. intros i Hi. destruct (Z.eq_dec i n) as [-> | Hin]; [exact Hne |].
        apply Hnone. lia.
Qed.

Lemma pigeonhole (n : Z) :
  0 <= n ->
  forall f : Z -> Z,
    (forall i, 0 <= i <= n -> 0 <= f i < n) ->
    exists i j, 0 <= i < j /\ j <= n /\ f i = f j.
Proof.
  intros Hn. pattern n. apply natlike_ind; [| | exact Hn].
  - intros f Hf. specialize (Hf 0). lia.
  - clear n Hn. intros n Hn IH f Hf.
    destruct (bounded_search f (f (Z.succ n)) (Z.succ n) ltac:(lia))
      as [(i & Hi & Hv) | Hnone].
    + exists i, (Z.succ n). split; [lia |]. split; [lia | exact Hv].
    + pose proof (Hf (Z.succ n) ltac:(lia)) as Htop.
      destruct (IH (fun i => if f i <? f (Z.succ n) then f i else f i - 1))
        as (i & j & Hij & Hj & Heq).
      { intros i Hi. pose proof (Hf i ltac:(lia)). pose proof (Hnone i ltac:(lia)).
        destruct (f i <? f (Z.succ n)) eqn:E;
          [apply Z.ltb_lt in E | apply Z.ltb_ge in E]; lia. }
      exists i, j. split; [exact Hij |]. split; [lia |].
      pose proof (Hnone i ltac:(lia)). pose proof (Hnone j ltac:(lia)).
      destruct (f i <? f (Z.succ n)) eqn:Ei;
        [apply Z.ltb_lt in Ei | apply Z.ltb_ge in Ei];
        destruct (f j <? f (Z.succ n)) eqn:Ej;
        [apply Z.ltb_lt in Ej | apply Z.ltb_ge in Ej | apply Z.ltb_lt in Ej
         | apply Z.ltb_ge in Ej]; lia.
Qed.

(** *** Hexadecimal digits as numbers *)

Lemma hex_digit_is_hex (d : Z) :
  0 <= d < 16 -> is_hex_digit (Hashlib.hex_digit d) = true.
Proof.
  intros Hd. assert (Hn : d = Z.of_nat (Z.to_nat d)) by lia.
  rewrite Hn. assert (Hk : (Z.to_nat d < 16)%nat) by lia.
  generalize dependent (Z.to_nat d). intros k _ Hk.
  do 16 (destruct k as [| k]; [reflexivity |]). lia.
Qed.

Lemma hex_digit_val_digit (d : Z) :
  0 <= d < 16 -> hex_digit_val (Hashlib.hex_digit d) = d.
Proof.
  intros Hd. assert (Hn : d = Z.of_nat (Z.to_nat d)) by lia.
  rewrite Hn. assert (Hk : (Z.to_nat d < 16)%nat) by lia.
  generalize dependent (Z.to_nat d). intros k _ Hk.
  do 16 (destruct k as [| k]; [reflexivity |]). lia.
Qed.

Lemma hex_digit_of_val (c : ascii) :
  is_hex_digit c = true ->
  0 <= hex_digit_val c < 16 /\ Hashlib.hex_digit (hex_digit_val c) = c.
Proof.
  destruct c as [[] [] [] [] [] [] [] []]; intros H; try discriminate H;
    (split; [vm_compute; split; [discriminate | reflexivity] | reflexivity]).
Qed.

Lemma hex_val_bound (s : string) :
  all_chars is_hex_digit s = true ->
  0 <= hex_val s < 16 ^ Z.of_nat (String.length s).
Proof.
  induction s as [| c s IH]; simpl String.length; simpl hex_val; [lia |].
  simpl all_chars. intros [Hc Hs]%andb_prop.
  destruct (hex_digit_of_val c Hc) as [Hd _]. specialize (IH Hs).
  rewrite Nat2Z.inj_succ, Z.pow_succ_r by lia. lia.
Qed.

Lemma hex_val_inj (s1 s2 : string) :
  String.length s1 = String.length s2 ->
  all_chars is_hex_digit s1 = true ->
  all_chars is_hex_digit s2 = true ->
  hex_val s1 = hex_val s2 -> s1 = s2.
Proof.
  revert s2. induction s1 as [| c1 s1 IH]; intros [| c2 s2]; simpl String.length;
    try discriminate; [reflexivity |].
  intros [= Hlen]. simpl all_chars.
  intros [Hc1 Hs1]%andb_prop [Hc2 Hs2]%andb_prop. simpl hex_val. intros Hv.
  destruct (hex_digit_of_val c1 Hc1) as [Hd1 He1].
  destruct (hex_digit_of_val c2 Hc2) as [Hd2 He2].
  assert (Hd : hex_digit_val c1 = hex_digit_val c2) by lia.
  assert (Hr : hex_val s1 = hex_val s2) by lia.
  rewrite <- He1, <- He2, Hd. f_equal. apply IH; assumption.
Qed.

Lemma hex_text_is_hex (n : nat) (i : Z) : hex_string n (hex_text n i).
Proof.
  revert i. induction n as [| n IH]; intros i; [split; reflexivity |].
  destruct (IH (i / 16)) as [Hlen Hall]. split; simpl.
  - rewrite Hlen. reflexivity.
  - rewrite hex_digit_is_hex by (apply Z.mod_pos_bound; lia). exact Hall.
Qed.

Lemma hex_val_text (n : nat) (i : Z) :
  0 <= i < 16 ^ Z.of_nat n -> hex_val (hex_text n i) = i.
Proof.
  revert i. induction n as [| n IH]; intros i Hi.
  - simpl in *. lia.
  - rewrite Nat2Z.inj_succ, Z.pow_succ_r in Hi by lia.
    simpl. rewrite hex_digit_val_digit by (apply Z.mod_pos_bound; lia).
    rewrite IH.
    + pose proof (Z.div_mod i 16 ltac:(lia)). lia.
    + split; [apply Z.div_pos; lia |].
      apply Z.div_lt_upper_bound; lia.
Qed.

(** A text of hexadecimal digits is its own normal form. *)
Lemma lower_char_hex (c : ascii) : is_hex_digit c = true -> lower_char c = c.
Proof.
  destruct c as [[] [] [] [] [] [] [] []]; intros H; try discriminate H; reflexivity.
Qed.

Lemma is_space_hex (c : ascii) : is_hex_digit c = true -> is_space c = false.
Proof.
  destruct c as [[] [] [] [] [] [] [] []]; intros H; try discriminate H; reflexivity.
Qed.

Lemma hex_normal (s : string) :
  all_chars is_hex_digit s = true -> strip (lower s) = s.
Proof.
  intros H.
  assert (Hl : lower s = s).
  { induction s as [| c s IH]; simpl in *; [reflexivity |].
    apply andb_prop in H as [Hc Hs]. rewrite (lower_char_hex c Hc), IH by exact Hs.
    reflexivity. }
  rewrite Hl. unfold strip.
  assert (Hr : rstrip s = s).
  { clear Hl. induction s as [| c s IH]; simpl in *; [reflexivity |].
    apply andb_prop in H as [Hc Hs]. rewrite IH by exact Hs.
    destruct s; [rewrite (is_space_hex c Hc) |]; reflexivity. }
  destruct s as [| c s]; [reflexivity |].
  simpl in H. apply andb_prop in H as [Hc Hs].
  simpl lstrip. rewrite (is_space_hex c Hc). exact Hr.
Qed.

(** C7, as stated, fails: texts with different normalised forms do not
    always have different keys.  A key is 32 hexadecimal digits, and
    there are more normalised texts than such keys, so two texts with
    different normalised forms have the same key. *)
Lemma get_cache_key_collision_exists :
  exists q1 q2 : string,
    strip (lower q1) <> strip (lower q2)
    /\ Query.get_cache_key q1 = Query.get_cache_key q2.
Proof.
  assert (Hpow : 16 ^ 32 < 16 ^ Z.of_nat 33)
    by (apply Z.pow_lt_mono_r; lia).
  assert (H0 : 0 <= 16 ^ 32) by (apply Z.pow_nonneg; lia).
  destruct (pigeonhole (16 ^ 32) H0
              (fun i => hex_val (Query.get_cache_key (hex_text 33 i))))
    as (i & j & Hij & Hj & Heq).
  { intros i _. destruct (get_cache_key_hex (hex_text 33 i)) as [Hlen Hall].
    pose proof (hex_val_bound _ Hall) as Hb. rewrite Hlen in Hb. exact Hb. }
  cbv beta in Heq.
  generalize dependent (16 ^ 32). intros top Hpow _ Hj.
  generalize dependent (33%nat). intros n Heq Hpow.
  exists (hex_text n i), (hex_text n j).
  destruct (hex_text_is_hex n i) as [_ Hi].
  destruct (hex_text_is_hex n j) as [_ Hj'].
  split.
  - rewrite (hex_normal _ Hi), (hex_normal _ Hj'). intros Htext.
    pose proof (hex_val_text n i ltac:(lia)) as Hvi.
    pose proof (hex_val_text n j ltac:(lia)) as Hvj.
    rewrite Htext in Hvi. lia.
  - destruct (get_cache_key_hex (hex_text n i)) as [Hl1 Ha1].
    destruct (get_cache_key_hex (hex_text n j)) as [Hl2 Ha2].
    apply hex_val_inj; [congruence | exact Ha1 | exact Ha2 | exact Heq].
Qed.

(** C7, as the code has it.  The key is computed from the lower-cased,
    trimmed text: texts with the same normalised form have the same
    key.  [" Hello "] and ["hello"] have the key
    [2cf24dba5fb0a30e26e83b2ac5b9e29e], the first 32 hexadecimal digits
    of the SHA-256 digest of ["hello"], and the key of ["Goodbye"] is
    another one; so are the keys of a text that starts with the same
    letter, of a text of two blocks and of a text with a letter above
    code point 127. *)
Theorem get_cache_key_normalizes :
  (forall q1 q2 : string,
     strip (lower q1) = strip (lower q2) ->
     Query.get_cache_key q1 = Query.get_cache_key q2)
  /\ Query.get_cache_key " Hello " = Query.get_cache_key "hello"
  /\ Query.get_cache_key "Goodbye" <> Query.get_cache_key "hello"
  /\ Query.get_cache_key "Goodbye" <> Query.get_cache_key " Hello "
  /\ (forall q : string,
        Query.get_cache_key q
        = slice_to 32 (Hashlib.hexdigest (Hashlib.encode (strip (lower q)))))
  /\ Query.get_cache_key " Hello " = "2cf24dba5fb0a30e26e83b2ac5b9e29e"
  /\ Query.get_cache_key "Goodbye" = "82e35a63ceba37e9646434c5dd412ea5"
  /\ Query.get_cache_key "Help me" = "375d8089619efffd0e8d7026cfd70354"
  /\ Query.get_cache_key
       "  What is the REFUND policy for orders that were placed more than thirty days ago? "
     = "a85a00643a5720cce1fb0976d0ba319d"
  /\ Query.get_cache_key
       (String "C" (String "A" (String "F" (String (ascii_of_nat 201) ""))))
     = "850f7dc43910ff890f8879c0ed26fe69".
Proof.
  split.
  { intros q1 q2 H. unfold Query.get_cache_key. rewrite H. reflexivity. }
  split; [vm_compute; reflexivity |].
  split; [vm_compute; discriminate |].
  split; [vm_compute; discriminate |].
  split; [intros q; reflexivity |].
  repeat split; vm_compute; reflexivity.
Qed.

Lemma get_cache_key_normalizes_witness :
  Query.get_cache_key "  HeLLo" = Query.get_cache_key "hello ".
Proof.
  apply (proj1 get_cache_key_normalizes). vm_compute. reflexivity.
Defined.

End KeyCollisions.

(** ** More on the vector store *)

Section VectorStoreMore.
Import PyStr Py VectorDb Fixtures Fixtures2.

(** *** Upsert *)

Lemma store_all_dom (vs : list PineconeVector) (m : gmap string StoredVector) :
  dom (store_all vs m) = dom m ∪ list_to_set (map pv_id vs).
Proof.
  unfold store_all. revert m. induction vs as [| v vs IH]; intros m; simpl.
  - rewrite (right_id_L ∅ (∪)). reflexivity.
  - rewrite IH, dom_insert_L. apply set_eq. intros x.
    rewrite !elem_of_union, elem_of_singleton. tauto.
Qed.

Lemma pg_insert_all_dom (rs : list VectorRecord) (t : gmap string PgRow) :
  dom (fold_left (fun t r => pg_insert r t) rs t)
  = dom t ∪ list_to_set (map id rs).
Proof.
  revert t. induction rs as [| r rs IH]; intros t; simpl.
  - rewrite (right_id_L ∅ (∪)). reflexivity.
  - rewrite IH. unfold pg_insert. rewrite dom_insert_L. apply set_eq. intros x.
    rewrite !elem_of_union, elem_of_singleton. tauto.
Qed.

Lemma pinecone_vectors_ids (records : list VectorRecord)
    (vs : list PineconeVector) :
  pinecone_vectors records = inr vs -> map pv_id vs = map id records.
Proof.
  revert vs. induction records as [| r records IH]; intros vs; simpl.
  - intros [= <-]. reflexivity.
  - unfold pinecone_vector at 1.
    destruct (text_prefix (text r)); [discriminate |].
    destruct (pinecone_vectors records); [discriminate |].
    intros [= <-]. simpl. f_equal. auto.
Qed.

Lemma dom_size_eq {A B} (m1 : gmap string A) (m2 : gmap string B) :
  dom m1 = dom m2 -> size m1 = size m2.
Proof. intros H. rewrite <- !size_dom, H. reflexivity. Qed.

(** X8.  An upsert that returns reports the number of records it was
    given, in both stores, also when ids repeat or are stored already;
    afterwards the stored ids are the earlier ones and those of the
    records, and the stores do not grow when every id was there. *)
Theorem upsert_adds_no_duplicate (records : list VectorRecord)
    (db db' : PineconeDB) (pg pg' : PgVectorDB) (n n' : Z) :
  0 < batch_size db ->
  Pinecone_upsert records db = (inr n, db') ->
  Pg_upsert records pg = (inr n', pg') ->
  n = Z.of_nat (length records)
  /\ n' = Z.of_nat (length records)
  /\ dom (ix_vectors (index db'))
     = dom (ix_vectors (index db)) ∪ list_to_set (map id records)
  /\ dom (pg_table pg') = dom (pg_table pg) ∪ list_to_set (map id records)
  /\ ((forall r, In r records -> is_Some (ix_vectors (index db) !! id r)) ->
      size (ix_vectors (index db')) = size (ix_vectors (index db)))
  /\ ((forall r, In r records -> is_Some (pg_table pg !! id r)) ->
      size (pg_table pg') = size (pg_table pg)).
Proof.
  intros Hbs Hup Hpg.
  destruct (Pinecone_upsert_inr _ _ _ _ Hbs Hup) as (vs & Hvs & Hn & Hstore & _).
  destruct (Pg_upsert_inr _ _ _ _ Hpg) as (Hn' & Htable).
  assert (Hd1 : dom (ix_vectors (index db'))
                = dom (ix_vectors (index db)) ∪ list_to_set (map id records)).
  { rewrite Hstore, store_all_dom, (pinecone_vectors_ids _ _ Hvs). reflexivity. }
  assert (Hd2 : dom (pg_table pg')
                = dom (pg_table pg) ∪ list_to_set (map id records)).
  { rewrite Htable. apply pg_insert_all_dom. }
  assert (Hsub : forall (A : Type) (m : gmap string A),
    (forall r, In r records -> is_Some (m !! id r)) ->
    dom m ∪ list_to_set (map id records) = dom m).
  { intros A m Hall. apply set_eq. intros i. rewrite elem_of_union.
    split; [| auto]. intros [Hi | Hi]; [exact Hi |].
    apply elem_of_list_to_set, list_elem_of_In, in_map_iff in Hi
      as (r & <- & Hr).
    apply elem_of_dom, Hall, Hr. }
  repeat split; try assumption.
  - intros Hall. apply dom_size_eq. rewrite Hd1. apply Hsub, Hall.
  - intros Hall. apply dom_size_eq. rewrite Hd2. apply Hsub, Hall.
Qed.


Lemma slice_to_short (k : Z) (s : string) : len s <= k -> slice_to k s = s.
Proof.
  intros Hk. unfold slice_to, clamp. pose proof (len_nonneg s) as Hs.
  destruct (Z.ltb_spec k 0); [lia |].
  rewrite Z.min_r by lia. unfold len. rewrite Nat2Z.id.
  clear. induction s as [| c s IH]; simpl; [reflexivity |]. rewrite IH.
  reflexivity.
Qed.

(** X9.  A record with a text of at most 1000 characters and no
    ["text"] key in its metadata, the last of its id in the call, comes
    back from a search of the managed store with its whole text, with
    its metadata extended by the ["text"] entry and without its vector;
    the relational store holds its text and metadata unchanged. *)
Theorem short_text_round_trip
    (pre post : list VectorRecord) (r : VectorRecord) (s : string)
    (db db' : PineconeDB) (pg pg' : PgVectorDB) (n n' : Z) :
  id r ∉ map id post ->
  text r = VStr s ->
  len s <= 1000 ->
  metadata r !! "text" = None ->
  0 < batch_size db ->
  Pinecone_upsert (pre ++ r :: post) db = (inr n, db') ->
  Pg_upsert (pre ++ r :: post) pg = (inr n', pg') ->
  (forall q k flt found st x,
     Pinecone_search q k flt db' = (inr found, st) ->
     In x found -> id x = id r ->
     text x = VStr s
     /\ metadata x = metadata r ∪ {[ "text" := VStr s ]}
     /\ vector x = [])
  /\ pg_table pg' !! id r
     = Some {| row_embedding := vector r; row_text := VStr s;
               row_metadata := metadata r |}.
Proof.
  intros Hlast Htext Hlen Hmeta Hbs Hup Hpg.
  destruct (Pinecone_upsert_inr _ _ _ _ Hbs Hup) as (vs & Hvs & _ & Hstore & _).
  destruct (pinecone_vectors_split _ _ _ _ Hvs)
    as (vpre & v & vpost & -> & Hv & Hids).
  unfold pinecone_vector in Hv. rewrite Htext in Hv. simpl in Hv.
  rewrite (slice_to_short _ _ Hlen) in Hv. injection Hv as <-.
  assert (Hix : ix_vectors (index db') !! id r
                = Some {| sv_values := vector r;
                          sv_metadata := metadata r ∪ {[ "text" := VStr s ]} |}).
  { rewrite Hstore.
    pose proof (store_all_last vpre vpost
             {| pv_id := id r; pv_values := vector r;
                pv_metadata := metadata r ∪ {[ "text" := VStr s ]} |}
             (ix_vectors (index db))) as Hl.
    simpl in Hl. apply Hl. rewrite Hids. exact Hlast. }
  destruct (Pg_upsert_inr _ _ _ _ Hpg) as (_ & Htable).
  assert (Hrow : pg_table pg' !! id r
                 = Some {| row_embedding := vector r; row_text := text r;
                           row_metadata := metadata r |}).
  { rewrite Htable. apply pg_insert_all_last, Hlast. }
  split.
  - intros q k flt found st x Hsearch Hin Hid.
    apply Pinecone_search_inr in Hsearch. subst found.
    apply in_map_iff in Hin as (m & <- & Hin). simpl in Hid |- *.
    apply index_query_In in Hin as (sv & Hsv & ->).
    rewrite Hid, Hix in Hsv. injection Hsv as <-. simpl.
    rewrite lookup_union_r by exact Hmeta.
    rewrite lookup_singleton_eq. auto.
  - rewrite Hrow, Htext. reflexivity.
Qed.

Lemma short_text_round_trip_witness :
  text (hd other_record
          (returned [] (Pinecone_search [1%Q] 5 None two_pinecone)))
  = VStr "Refunds within 30 days.".
Proof.
  refine (proj1 (proj1
    (short_text_round_trip [] [other_record] small_record
       "Refunds within 30 days."
       empty_pinecone two_pinecone empty_pgvector two_pgvector
       2 2 _ _ _ _ _ _ _)
    [1%Q] 5 None
    (returned [] (Pinecone_search [1%Q] 5 None two_pinecone)) two_pinecone
    (hd other_record
       (returned [] (Pinecone_search [1%Q] 5 None two_pinecone))) _ _ _)).
  - vm_compute. intros [H | H]%elem_of_cons; [discriminate | inversion H].
  - reflexivity.
  - vm_compute. discriminate.
  - reflexivity.
  - vm_compute. reflexivity.
  - vm_compute. reflexivity.
  - vm_compute. reflexivity.
  - vm_compute. reflexivity.
  - vm_compute. left. reflexivity.
  - vm_compute. reflexivity.
Defined.



(** X11.  With batch size 0 an upsert of records raises the
    [ValueError] of [range] and stores nothing; with a negative batch
    size it returns 0 and stores nothing. *)
Theorem Pinecone_upsert_degenerate_batch_size (records : list VectorRecord)
    (vs : list PineconeVector) (db : PineconeDB) :
  records <> [] ->
  pinecone_vectors records = inr vs ->
  (batch_size db = 0 ->
   Pinecone_upsert records db
   = (inl (mkExn "ValueError" "range() arg 3 must not be zero"), db))
  /\ (batch_size db < 0 ->
      exists db',
        Pinecone_upsert records db = (inr 0, db')
        /\ ix_vectors (index db') = ix_vectors (index db)).
Proof.
  intros Hne Hvs. unfold Pinecone_upsert.
  destruct records as [| r0 rest] eqn:Hrec; [contradiction |].
  rewrite <- Hrec in *.
  unfold mbind, M_bind, bind, lift, get_state, raise, modify, mret, M_ret, ret.
  rewrite Hvs. simpl. unfold range_step. split.
  - intros ->. reflexivity.
  - intros Hneg. destruct (Z.eqb_spec (batch_size db) 0); [lia |].
    destruct (Z.ltb_spec (batch_size db) 0); [| lia].
    simpl. eexists. split; reflexivity.
Qed.

Lemma Pinecone_upsert_degenerate_batch_size_witness :
  exists db',
    Pinecone_upsert [small_record]
      {| batch_size := -1; index := index empty_pinecone |}
    = (inr 0, db')
    /\ ix_vectors (index db') = ∅.
Proof.
  destruct (Pinecone_upsert_degenerate_batch_size [small_record] _
              {| batch_size := -1; index := index empty_pinecone |}
              ltac:(discriminate) eq_refl) as [_ H].
  apply H. simpl. lia.
Defined.

(** X12.  After a delete no search of the managed store returns a
    deleted id, neither store holds one, and every other id is stored
    as before. *)
Theorem deleted_ids_are_not_found (ids : list string)
    (db db' : PineconeDB) (pg pg' : PgVectorDB) (n n' : Z) :
  Pinecone_delete ids db = (inr n, db') ->
  Pg_delete ids pg = (inr n', pg') ->
  (forall q k flt found st x,
     Pinecone_search q k flt db' = (inr found, st) ->
     In x found -> id x ∉ ids)
  /\ (forall i, i ∈ ids ->
        ix_vectors (index db') !! i = None /\ pg_table pg' !! i = None)
  /\ (forall i, i ∉ ids ->
        ix_vectors (index db') !! i = ix_vectors (index db) !! i
        /\ pg_table pg' !! i = pg_table pg !! i).
Proof.
  intros Hd Hp.
  destruct (Pinecone_delete_returns ids db) as (db1 & Hd1 & Hlook1).
  rewrite Hd in Hd1. injection Hd1 as _ <-.
  destruct (Pg_delete_returns ids pg) as (n1 & pg1 & Hp1 & _ & Hlook2).
  rewrite Hp in Hp1. injection Hp1 as _ <-.
  split; [| split].
  - intros q k flt found st x Hs Hin Hx.
    apply Pinecone_search_inr in Hs. subst found.
    apply in_map_iff in Hin as (m & <- & Hin). simpl in Hx.
    apply index_query_In in Hin as (sv & Hsv & _).
    rewrite Hlook1, decide_True in Hsv by exact Hx. discriminate.
  - intros i Hi. rewrite Hlook1, Hlook2, !decide_True by exact Hi. auto.
  - intros i Hi. rewrite Hlook1, Hlook2, !decide_False by exact Hi. auto.
Qed.

Lemma deleted_ids_are_not_found_witness :
  id (hd small_record
        (returned [] (Pinecone_search [1%Q] 5 None
                        (Pinecone_delete ["c1"; "ghost"] two_pinecone).2)))
  ∉ ["c1"; "ghost"].
Proof.
  refine (proj1
    (deleted_ids_are_not_found ["c1"; "ghost"]
       two_pinecone (Pinecone_delete ["c1"; "ghost"] two_pinecone).2
       two_pgvector (Pg_delete ["c1"; "ghost"] two_pgvector).2
       2 1 _ _)
    [1%Q] 5 None
    (returned [] (Pinecone_search [1%Q] 5 None
                    (Pinecone_delete ["c1"; "ghost"] two_pinecone).2))
    (Pinecone_delete ["c1"; "ghost"] two_pinecone).2 _ _ _).
  - vm_compute. reflexivity.
  - vm_compute. reflexivity.
  - vm_compute. reflexivity.
  - vm_compute. left. reflexivity.
Defined.

Lemma upsert_adds_no_duplicate_witness :
  size (ix_vectors (index (Pinecone_upsert [small_record] two_pinecone).2))
  = size (ix_vectors (index two_pinecone)).
Proof.
  refine (proj1 (proj2 (proj2 (proj2 (proj2
    (upsert_adds_no_duplicate [small_record]
       two_pinecone (Pinecone_upsert [small_record] two_pinecone).2
       two_pgvector (Pg_upsert [small_record] two_pgvector).2
       1 1 _ _ _))))) _).
  - vm_compute. reflexivity.
  - vm_compute. reflexivity.
  - vm_compute. reflexivity.
  - intros r [<- | []]. vm_compute. eauto.
Defined.

End VectorStoreMore.

Section PgStatementProps.
Import PyStr Py VectorDb PgStatement.

Lemma insert_before_last_snoc {A} (x y : A) (l : list A) :
  insert_before_last x (l ++ [y]) = l ++ [x; y].
Proof.
  unfold insert_before_last. rewrite length_app. simpl.
  replace (length l + 1 - 1)%nat with (length l) by lia.
  rewrite take_app_length, drop_app_length. reflexivity.
Qed.

Lemma fold_insert_before_last (kvs : list (string * pyval))
    (front : list SqlParam) (y : SqlParam) :
  fold_left (fun ps kv => insert_before_last (PValue kv.2) ps) kvs (front ++ [y])
  = front ++ map (fun kv => PValue kv.2) kvs ++ [y].
Proof.
  revert front. induction kvs as [| kv kvs IH]; intros front; simpl; [reflexivity |].
  rewrite insert_before_last_snoc.
  change (front ++ [PValue kv.2; y]) with (front ++ [PValue kv.2] ++ [y]).
  rewrite app_assoc, IH, <- app_assoc. reflexivity.
Qed.

(** X13.  The search statement of the relational store is given
    [query_vector], the filter values, [top_k] and [query_vector], in
    this order: the operand of [ORDER BY embedding <=> %s] is bound to
    the integer [top_k] and [LIMIT %s] to the query vector. *)
Theorem Pg_search_binds_limit_to_the_vector (query_vector : list Q) (top_k : Z)
    (filter_metadata : option (gmap string pyval)) :
  exists values : list pyval,
    search_params query_vector top_k filter_metadata
    = [PVector query_vector] ++ map PValue values
        ++ [PInt top_k; PVector query_vector]
    /\ length values = length (search_conditions filter_metadata)
    /\ zip (search_placeholders filter_metadata)
           (search_params query_vector top_k filter_metadata)
       = [(ScoreOperand, PVector query_vector)]
           ++ zip (map ConditionValue (search_conditions filter_metadata))
                  (map PValue values)
           ++ [(OrderOperand, PInt top_k); (LimitCount, PVector query_vector)].
Proof.
  unfold search_params, search_placeholders, search_conditions.
  destruct (filter_given filter_metadata) as [f |].
  - exists (map snd (map_to_list f)).
    change [PVector query_vector; PInt top_k]
      with ([PVector query_vector] ++ [PInt top_k]).
    rewrite fold_insert_before_last.
    assert (Hmap : map (fun kv : string * pyval => PValue kv.2) (map_to_list f)
                   = map PValue (map snd (map_to_list f)))
      by (rewrite map_map; reflexivity).
    rewrite Hmap, <- !app_assoc. split; [reflexivity |].
    split; [rewrite !length_map; reflexivity |].
    simpl. f_equal.
    generalize (map_to_list f). intros l.
    induction l as [| kv l IH]; simpl; [reflexivity |]. rewrite IH. reflexivity.
  - exists []. split; [reflexivity |]. split; reflexivity.
Qed.

End PgStatementProps.

(** ** More on the query pipeline *)

Section PipelineMore.
Import PyStr Py Query QueryFacts Fixtures.

Lemma generate_response_messages (txt : Texts) (svc : Services)
    (query context : string) (history : list Message) (w : World) :
  generate_response txt svc query context history w
  = (chat_completions svc (chat_messages txt query context history),
     {| clock := clock w; ticks := ticks w; cache_table := cache_table w;
        cache_fault := cache_fault w;
        trace := trace w ++ [EvGenerate (chat_messages txt query context history)] |}).
Proof.
  unfold generate_response, chat_messages.
  destruct history as [| h history]; run;
    match goal with
    | |- context [chat_completions svc ?m] => destruct (chat_completions svc m)
    end; reflexivity.
Qed.

(** A run that misses the cache and is answered by the three services. *)
Lemma process_query_miss_run (cfg : Config) (txt : Texts) (svc : Services)
    (query : string) (flt : option (gmap string pyval))
    (history : list Message) (w w1 : World)
    (v : list Q) (ms : list VectorDb.PineconeMatch) (ans : string) (toks : Z) :
  get_cached_response cfg (get_cache_key query) (tick w) = (inr None, w1) ->
  embeddings_create svc query = inr v ->
  pinecone_query svc v (TOP_K cfg) (VectorDb.filter_given flt) = inr ms ->
  chat_completions svc
    (chat_messages txt query
       (context_and_sources txt (collect_results cfg ms)).1 history)
  = inr (ans, toks) ->
  exists metrics w2,
    process_query cfg txt svc query flt history w
    = (inr ({| answer := ans;
               sources := (context_and_sources txt (collect_results cfg ms)).2;
               context_used := Z.of_nat (length (collect_results cfg ms)) |},
            metrics),
       tick w2)
    /\ cache_response cfg (get_cache_key query)
         {| answer := ans;
            sources := (context_and_sources txt (collect_results cfg ms)).2;
            context_used := Z.of_nat (length (collect_results cfg ms)) |}
         (after_generation w1
            [ EvEmbed query;
              EvSearch v (TOP_K cfg) (VectorDb.filter_given flt);
              EvGenerate
                (chat_messages txt query
                   (context_and_sources txt (collect_results cfg ms)).1
                   history) ])
       = (inr tt, w2)
    /\ cache_hit metrics = false.
Proof.
  intros Hmiss Hembed Hsearch Hchat. unfold process_query.
  unfold mbind at 1, M_bind at 1, bind at 1, time_time at 1.
  unfold mbind at 1, M_bind at 1, bind at 1. rewrite Hmiss.
  unfold create_query_embedding, search_pinecone, generate_response,
    after_generation.
  destruct (context_and_sources txt (collect_results cfg ms))
    as [context srcs] eqn:Hctx.
  unfold chat_messages in *.
  destruct history as [| h history]; run; simpl in Hchat;
    rewrite Hembed; simpl; rewrite Hsearch; simpl; rewrite Hctx; simpl;
    rewrite Hchat; simpl; rewrite <- !app_assoc; simpl;
    match goal with
    | |- context [cache_response cfg ?k ?r ?w0] =>
        destruct (cache_response_effect cfg k r w0) as (w2 & Hput)
    end;
    rewrite Hput; simpl; eexists _, w2;
    (split; [reflexivity | split; [exact Hput | reflexivity]]).
Qed.






Lemma collect_results_none (cfg : Config) (ms : list VectorDb.PineconeMatch) :
  Forall (fun m => Qlt (VectorDb.m_score m) (SIMILARITY_THRESHOLD cfg)) ms ->
  collect_results cfg ms = [].
Proof.
  induction 1 as [| m ms Hm _ IH]; simpl; [reflexivity |].
  destruct (Qle_bool (SIMILARITY_THRESHOLD cfg) (VectorDb.m_score m)) eqn:E.
  - apply Qle_bool_iff in E. exfalso. exact (Qlt_not_le _ _ Hm E).
  - exact IH.
Qed.

Lemma cache_response_trace (cfg : Config) (key : string) (r : Response)
    (w w' : World) :
  cache_response cfg key r w = (inr tt, w') ->
  exists added, trace w' = trace w ++ added.
Proof.
  unfold cache_response, table_put_item.
  destruct (CACHE_ENABLED cfg); simpl.
  2:{ intros [= <-]. exists []. rewrite app_nil_r. reflexivity. }
  run. destruct (cache_fault w); simpl; intros [= <-]; simpl.
  - eexists [_; _]. rewrite <- app_assoc. reflexivity.
  - eexists [_]. reflexivity.
Qed.

(** X15.  When every match is below the threshold the model is still
    asked, with the no-documents text as context, and the response has
    its answer, no sources and [context_used = 0]. *)
Theorem no_match_above_threshold_still_answers (cfg : Config) (txt : Texts)
    (svc : Services) (query : string) (flt : option (gmap string pyval))
    (history : list Message) (w w1 : World)
    (v : list Q) (ms : list VectorDb.PineconeMatch) (ans : string) (toks : Z) :
  get_cached_response cfg (get_cache_key query) (tick w) = (inr None, w1) ->
  embeddings_create svc query = inr v ->
  pinecone_query svc v (TOP_K cfg) (VectorDb.filter_given flt) = inr ms ->
  Forall (fun m => Qlt (VectorDb.m_score m) (SIMILARITY_THRESHOLD cfg)) ms ->
  chat_completions svc (chat_messages txt query (no_documents txt) history)
    = inr (ans, toks) ->
  exists metrics w',
    process_query cfg txt svc query flt history w
    = (inr ({| answer := ans; sources := []; context_used := 0 |}, metrics), w')
    /\ cache_hit metrics = false
    /\ In (EvGenerate (chat_messages txt query (no_documents txt) history))
          (trace w').
Proof.
  intros Hmiss Hembed Hsearch Hlow Hchat.
  pose proof (collect_results_none cfg ms Hlow) as Hnone.
  destruct (process_query_miss_run cfg txt svc query flt history w w1 v ms
              ans toks Hmiss Hembed Hsearch) as (metrics & w2 & Hrun & Hput & Hhit).
  { rewrite Hnone. exact Hchat. }
  rewrite Hnone in Hrun, Hput. simpl in Hrun, Hput.
  exists metrics, (tick w2). split; [exact Hrun |]. split; [exact Hhit |].
  destruct (cache_response_trace _ _ _ _ _ Hput) as (added & Htr).
  simpl. rewrite Htr. simpl. apply in_or_app. left. apply in_or_app. right.
  simpl. auto.
Qed.

Lemma no_match_above_threshold_still_answers_witness :
  exists metrics w',
    process_query default_config texts
      {| embeddings_create := fun _ => inr [1%Q];
         pinecone_query := fun _ _ _ => inr [];
         chat_completions := fun _ => inr ("No relevant information.", 7) |}
      refund_query None [] cold_world
    = (inr ({| answer := "No relevant information."; sources := [];
               context_used := 0 |}, metrics), w').
Proof.
  destruct (no_match_above_threshold_still_answers default_config texts
              {| embeddings_create := fun _ => inr [1%Q];
                 pinecone_query := fun _ _ _ => inr [];
                 chat_completions := fun _ => inr ("No relevant information.", 7) |}
              refund_query None [] cold_world
              (get_cached_response default_config (get_cache_key refund_query)
                 (tick cold_world)).2
              [1%Q] [] "No relevant information." 7)
    as (metrics & w' & Hrun & _).
  - vm_compute. reflexivity.
  - reflexivity.
  - reflexivity.
  - constructor.
  - reflexivity.
  - eauto.
Defined.

(** X16.  With the cache switched off a query neither reads nor writes
    the cache table, whatever its outcome, and is never a cache hit. *)
Theorem disabled_cache_is_never_called (cfg : Config) (txt : Texts)
    (svc : Services) (query : string) (flt : option (gmap string pyval))
    (history : list Message) (w w' : World)
    (outcome : exn + Response * QueryMetrics) :
  CACHE_ENABLED cfg = false ->
  process_query cfg txt svc query flt history w = (outcome, w') ->
  cache_table w' = cache_table w
  /\ Forall (fun e => is_cache_call e = false)
            (drop (length (trace w)) (trace w'))
  /\ (forall r m, outcome = inr (r, m) -> cache_hit m = false).
Proof.
  intros Hoff. unfold process_query, get_cached_response, cache_response,
    create_query_embedding, search_pinecone, generate_response.
  rewrite Hoff. run.
  destruct (embeddings_create svc query) as [e | v].
  { intros [= <- <-]. simpl. rewrite <- ?app_assoc, drop_app_length.
    repeat split; try discriminate. repeat constructor. }
  destruct (pinecone_query svc v (TOP_K cfg) (VectorDb.filter_given flt))
    as [e | ms].
  { intros [= <- <-]. simpl. rewrite <- ?app_assoc, drop_app_length.
    repeat split; try discriminate. repeat constructor. }
  destruct (context_and_sources txt (collect_results cfg ms)) as [context srcs].
  match goal with
  | |- context [chat_completions svc ?m] =>
      destruct (chat_completions svc m) as [e | [ans toks]]
  end.
  { intros [= <- <-]. simpl. rewrite <- ?app_assoc, drop_app_length.
    repeat split; try discriminate. repeat constructor. }
  intros [= <- <-]. simpl. rewrite <- ?app_assoc, drop_app_length.
  repeat split.
  - repeat constructor.
  - intros r m [= _ <-]. reflexivity.
Qed.

Lemma disabled_cache_is_never_called_witness :
  cache_table
    (process_query
       {| CACHE_ENABLED := false; CACHE_TTL := 3600; TOP_K := 5;
          SIMILARITY_THRESHOLD := 7 # 10 |}
       texts services_up refund_query None [] (cached_world 5000)).2
  = cache_table (cached_world 5000).
Proof.
  refine (proj1
    (disabled_cache_is_never_called
       {| CACHE_ENABLED := false; CACHE_TTL := 3600; TOP_K := 5;
          SIMILARITY_THRESHOLD := 7 # 10 |}
       texts services_up refund_query None [] (cached_world 5000) _ _ _ _)).
  - reflexivity.
  - apply surjective_pairing.
Defined.

End PipelineMore.

